(** * Philippines line-list data source: case records to dual-resolution time series

    A shallow embedding of [PhilippinesDataSource.parse_dataframes]
    (src/pipelines/epidemiology/ph_authority.py) and the properties of it that
    the specification states.

    Modelling conventions.
    - A pandas table is a list of rows.  The renamed case table is a list of
      [CaseRecord]s (one field per column produced by [table_rename] with
      [drop=True]); every table from the aggregation onwards is a list of
      [row]s, finite maps from column names to cells.
    - A missing value (None, NaN, NaT) is [None] in a text column of the case
      table and [CNull] in a [row].
    - A text column of the case table has the dtype with which pandas reads
      it from a file: object when some row holds a string or the table has
      no row, float64 (all NaN) when it has rows and none holds a string.
    - A string is its sequence of bytes (UTF-8).
    - An operation that raises a Python exception returns [None]. *)

From Stdlib Require Import ZArith Lia Ascii String.
From stdpp Require Import base option list list_numbers strings gmap fin_maps.

Local Open Scope Z_scope.

(** ** Cells *)

(** The fields of a [datetime.datetime] (or pandas Timestamp). *)
Record datetime : Type := mk_datetime {
  year : Z; month : Z; day : Z; hour : Z; minute : Z; second : Z
}.

(** What a cell of a table may hold: a null, a [str], an [int] (the counts and
    the zero that [fillna] writes), or a parsed timestamp. *)
Inductive cell : Type :=
| CNull
| CStr (s : string)
| CNum (n : Z)
| CTime (t : datetime).

Global Instance datetime_eq_dec : EqDecision datetime.
Proof. solve_decision. Defined.

Global Instance cell_eq_dec : EqDecision cell.
Proof. solve_decision. Defined.

(** [Series.isna()] on one cell. *)
Definition isna (c : cell) : bool :=
  match c with CNull => true | _ => false end.

(** A text cell of the case table seen as a cell of a [row]. *)
Definition of_text (o : option string) : cell :=
  match o with Some s => CStr s | None => CNull end.

(** ** Strings *)

Module Str.

(** The ASCII part of [str.lower()]: the letters [A-Z] are lowered, every
    other byte is unchanged.  It is used for the comparison of line 61 only:
    no character outside [A-Z] lowers to an ASCII letter of "yes", and the
    bytes of a non-ASCII character are above 127, so [lower s = "yes"] here
    exactly when Python's [s.lower() == "yes"]. *)
Definition lower_ascii (a : ascii) : ascii :=
  let n := nat_of_ascii a in
  if ((65 <=? n)%nat && (n <=? 90)%nat)%bool then ascii_of_nat (n + 32) else a.

Fixpoint lower (s : string) : string :=
  match s with
  | EmptyString => EmptyString
  | String a rest => String (lower_ascii a) (lower rest)
  end.

(** [s.split(": ")]: the pieces of [s] between the non-overlapping
    occurrences of the two-character separator, scanning left to right.
    [cur] holds the characters of the current piece, latest first. *)
Fixpoint split_go (cur : list ascii) (s : string) : list string :=
  match s with
  | EmptyString => [string_of_list_ascii (rev cur)]
  | String a rest =>
      match rest with
      | String b rest' =>
          if (Ascii.eqb a ":" && Ascii.eqb b " ")%bool
          then string_of_list_ascii (rev cur) :: split_go [] rest'
          else split_go (a :: cur) rest
      | EmptyString => split_go (a :: cur) rest
      end
  end.

Definition split_colon_space (s : string) : list string := split_go [] s.

(** [x.split(": ")[-1]]; the split of a string is never empty, the default
    is not reached. *)
Definition last_piece (s : string) : string :=
  default EmptyString (last (split_colon_space s)).

(** [": " in s]. *)
Fixpoint has_sep (s : string) : bool :=
  match s with
  | EmptyString => false
  | String a rest =>
      match rest with
      | String b _ => (Ascii.eqb a ":" && Ascii.eqb b " ") || has_sep rest
      | EmptyString => false
      end
  end.

End Str.

(** ** Calendar dates and [isoformat] *)

Module Iso.

Definition digit (n : Z) : ascii := ascii_of_nat (48 + Z.to_nat (n mod 10)).

(** The [width] low decimal digits of [n], most significant first: what the
    formats [%04d] and [%02d] print when [0 <= n < 10 ^ width]. *)
Fixpoint zero_pad (width : nat) (n : Z) : string :=
  match width with
  | O => EmptyString
  | S w => zero_pad w (n / 10) +:+ String (digit n) EmptyString
  end.

(** [x.date().isoformat()]: the time of day is dropped by [date()], and
    [date.isoformat] prints [%04d-%02d-%02d]. *)
Definition isoformat (t : datetime) : string :=
  zero_pad 4 (year t) +:+ "-" +:+ zero_pad 2 (month t) +:+ "-" +:+ zero_pad 2 (day t).

Definition is_leap (y : Z) : bool :=
  ((y mod 4 =? 0) && negb (y mod 100 =? 0) || (y mod 400 =? 0))%bool.

Definition days_in_month (y m : Z) : Z :=
  if m =? 2 then (if is_leap y then 29 else 28)
  else if (m =? 4) || (m =? 6) || (m =? 9) || (m =? 11) then 30
  else 31.

(** The invariant of every [datetime] object (MINYEAR = 1, MAXYEAR = 9999). *)
Definition valid_datetime (t : datetime) : Prop :=
  1 <= year t <= 9999 /\ 1 <= month t <= 12 /\
  1 <= day t <= days_in_month (year t) (month t) /\
  0 <= hour t <= 23 /\ 0 <= minute t <= 59 /\ 0 <= second t <= 59.

Definition valid_datetimeb (t : datetime) : bool :=
  ((1 <=? year t) && (year t <=? 9999) && (1 <=? month t) && (month t <=? 12) &&
   (1 <=? day t) && (day t <=? days_in_month (year t) (month t)) &&
   (0 <=? hour t) && (hour t <=? 23) && (0 <=? minute t) && (minute t <=? 59) &&
   (0 <=? second t) && (second t <=? 59))%bool.

(** Reading side, used to state what an ISO-8601 calendar date is. *)
Definition digit_val (a : ascii) : option Z :=
  let n := nat_of_ascii a in
  if ((48 <=? n)%nat && (n <=? 57)%nat)%bool then Some (Z.of_nat n - 48) else None.

Fixpoint number_go (acc : Z) (l : list ascii) : option Z :=
  match l with
  | [] => Some acc
  | a :: l' => match digit_val a with
               | Some d => number_go (10 * acc + d) l'
               | None => None
               end
  end.

Definition number (l : list ascii) : option Z := number_go 0 l.

(** [read_date s] is the (year, month, day) that a ten-character string
    [YYYY-MM-DD] denotes, when it names a day of the calendar. *)
Definition read_date (s : string) : option (Z * Z * Z) :=
  match list_ascii_of_string s with
  | [y1; y2; y3; y4; "-"%char; m1; m2; "-"%char; d1; d2] =>
      match number [y1; y2; y3; y4], number [m1; m2], number [d1; d2] with
      | Some y, Some m, Some d =>
          if ((1 <=? y) && (1 <=? m) && (m <=? 12) && (1 <=? d) &&
              (d <=? days_in_month y m))%bool
          then Some (y, m, d) else None
      | _, _, _ => None
      end
  | _ => None
  end.

End Iso.

(** ** The case table *)

(** One row of the table returned by [table_rename] (lines 30-45): the ten
    renamed columns, the others dropped, and the [date_new_hospitalized]
    column that line 60 adds.  Text columns hold a string or are missing. *)
Record CaseRecord : Type := mk_case {
  match_string_province : option string;   (* ProvRes *)
  match_string_region : option string;     (* RegionRes *)
  date_new_deceased : option string;       (* DateDied *)
  date_new_confirmed : option string;      (* DateSpecimen *)
  date_new_recovered : option string;      (* DateRecover *)
  _date_estimate : option string;          (* daterepconf *)
  _hospitalized : option string;           (* admitted *)
  _prognosis : option string;              (* removaltype *)
  age : cell;                              (* Age *)
  sex : option string;                     (* Sex *)
  date_new_hospitalized : option string
}.

Definition set_date_new_recovered (v : option string) (c : CaseRecord) : CaseRecord :=
  mk_case (match_string_province c) (match_string_region c) (date_new_deceased c)
    (date_new_confirmed c) v (_date_estimate c) (_hospitalized c) (_prognosis c)
    (age c) (sex c) (date_new_hospitalized c).

Definition set_date_new_deceased (v : option string) (c : CaseRecord) : CaseRecord :=
  mk_case (match_string_province c) (match_string_region c) v
    (date_new_confirmed c) (date_new_recovered c) (_date_estimate c) (_hospitalized c)
    (_prognosis c) (age c) (sex c) (date_new_hospitalized c).

Definition set_date_new_hospitalized (v : option string) (c : CaseRecord) : CaseRecord :=
  mk_case (match_string_province c) (match_string_region c) (date_new_deceased c)
    (date_new_confirmed c) (date_new_recovered c) (_date_estimate c) (_hospitalized c)
    (_prognosis c) (age c) (sex c) v.

Definition set_age (v : cell) (c : CaseRecord) : CaseRecord :=
  mk_case (match_string_province c) (match_string_region c) (date_new_deceased c)
    (date_new_confirmed c) (date_new_recovered c) (_date_estimate c) (_hospitalized c)
    (_prognosis c) v (sex c) (date_new_hospitalized c).

Definition set_sex (v : option string) (c : CaseRecord) : CaseRecord :=
  mk_case (match_string_province c) (match_string_region c) (date_new_deceased c)
    (date_new_confirmed c) (date_new_recovered c) (_date_estimate c) (_hospitalized c)
    (_prognosis c) (age c) v (date_new_hospitalized c).

(** [series.isna()] and [series == literal] on a text column. *)
Definition text_isna (o : option string) : bool :=
  match o with None => true | Some _ => false end.

Definition text_eq (o : option string) (lit : string) : bool :=
  bool_decide (o = Some lit).

(** *** DateImputer (lines 47-57) *)

(** Lines 48-51, on one row: the mask, then the assignment under the mask. *)
Definition nan_recovered_mask (c : CaseRecord) : bool :=
  text_isna (date_new_recovered c) && text_eq (_prognosis c) "Recovered".

Definition impute_recovered (c : CaseRecord) : CaseRecord :=
  if nan_recovered_mask c then set_date_new_recovered (_date_estimate c) c else c.

(** Lines 54-57. *)
Definition nan_deceased_mask (c : CaseRecord) : bool :=
  text_isna (date_new_deceased c) && text_eq (_prognosis c) "Died".

Definition impute_deceased (c : CaseRecord) : CaseRecord :=
  if nan_deceased_mask c then set_date_new_deceased (_date_estimate c) c else c.

Definition DateImputer (c : CaseRecord) : CaseRecord :=
  impute_deceased (impute_recovered c).

(** *** HospitalizationInferrer (lines 59-64) *)

(** The dtype with which a text column is read from a file: object ([true])
    when some row holds a string or there is no row, float64 ([false]) when
    there are rows and every one of them is missing (NaN). *)
Definition is_text_column (column : list (option string)) : bool :=
  bool_decide (column = [] ∨ Exists is_Some column).

(** [series.str]: the accessor exists on a column of text only; on a float64
    column it raises AttributeError. *)
Definition str_accessor (column : list (option string)) : option (list (option string)) :=
  if is_text_column column then Some column else None.

(** [.str.lower() == "yes"] on one value under the accessor: a missing value
    stays missing, which is not equal to the literal. *)
Definition lower_is_yes (flag : option string) : bool :=
  text_eq (Str.lower <$> flag) "yes".

(** Line 61: [cases["_hospitalized"].str.lower() == "yes"], a column of
    booleans. *)
Definition hospitalized_mask (cases : list CaseRecord) : option (list bool) :=
  match str_accessor (_hospitalized <$> cases) with
  | Some flags => Some (lower_is_yes <$> flags)
  | None => None
  end.

(** Lines 62-64 on one row and its bit of the mask. *)
Definition assign_confirmed (m : bool) (c : CaseRecord) : CaseRecord :=
  if m then set_date_new_hospitalized (date_new_confirmed c) c else c.

Definition HospitalizationInferrer (cases : list CaseRecord) : option (list CaseRecord) :=
  let cases := set_date_new_hospitalized None <$> cases in            (* line 60 *)
  mask ← hospitalized_mask cases;                                     (* line 61 *)
  Some (zip_with assign_confirmed mask cases).                        (* lines 62-64 *)

(** *** Sex labels (line 70) *)

(** [lambda x: x.lower()] applied to one value of the column: a missing value
    is a float, which has no attribute [lower], and the call raises.  On a
    string the call is Python's [str.lower], with the case mapping of
    Unicode; it is a parameter here. *)
Definition lower_sex (str_lower : string → string) (c : CaseRecord) : option CaseRecord :=
  match sex c with
  | Some s => Some (set_sex (Some (str_lower s)) c)
  | None => None
  end.

(** ** Rows and tables with named columns *)

Abbreviation row := (gmap string cell).

Global Instance cell_inhabited : Inhabited cell := populate CNull.

(** The value of a column in a row; a column that the row lacks reads as null. *)
Definition get (col : string) (r : row) : cell := r !!! col.

(** Line 73: the columns whose name does not start with an underscore. *)
Definition public_columns (c : CaseRecord) : row :=
  {[ "match_string_province" := of_text (match_string_province c);
     "match_string_region" := of_text (match_string_region c);
     "date_new_deceased" := of_text (date_new_deceased c);
     "date_new_confirmed" := of_text (date_new_confirmed c);
     "date_new_recovered" := of_text (date_new_recovered c);
     "age" := age c;
     "sex" := of_text (sex c);
     "date_new_hospitalized" := of_text (date_new_hospitalized c) ]}.

(** The four event types. *)
Inductive event : Type := confirmed | deceased | recovered | hospitalized.

Global Instance event_eq_dec : EqDecision event.
Proof. solve_decision. Defined.

Definition events : list event := [deceased; confirmed; recovered; hospitalized].

Definition date_column (e : event) : string :=
  match e with
  | confirmed => "date_new_confirmed"
  | deceased => "date_new_deceased"
  | recovered => "date_new_recovered"
  | hospitalized => "date_new_hospitalized"
  end.

Definition value_column (e : event) : string :=
  match e with
  | confirmed => "new_confirmed"
  | deceased => "new_deceased"
  | recovered => "new_recovered"
  | hospitalized => "new_hospitalized"
  end.

(** ** CaseAggregator: [convert_cases_to_time_series] (lib/case_line.py)

    The function is called at line 76 and defined outside this source file;
    the module follows section 4.4 of the specification, steps 1 to 4. *)

Module CaseLine.

(** Modelled from the spec: the grouping tuple of
    [convert_cases_to_time_series], "(event date, all grouping columns)",
    the grouping columns being the index columns "used together with age
    band and sex". *)
Definition key_columns (index_columns : list string) : list string :=
  "date" :: index_columns ++ ["age"; "sex"].

(** Modelled from the spec: one case row seen from one event of
    [convert_cases_to_time_series]; the event's date column is the date. *)
Definition event_row (e : event) (r : row) : row :=
  <["date" := get (date_column e) r]> r.

(** Modelled from the spec: steps 1 and 2 of [convert_cases_to_time_series]
    for one row, "select the subset of rows where that date is non-null" and
    "group that subset by the tuple (event date, all grouping columns)": the
    group of the row, if it is counted for the event.  The key a case needs
    to be counted for an event is the date of that event ("a case missing a
    required grouping key is excluded entirely from the aggregation for that
    event (see §3 invariant)", the invariant counting every case whose date
    is non-null).  A missing value in a grouping column is a key value like
    any other: "province may be absent" (section 3), "a case with only region
    known still contributes to the region-level series" (section 8), and the
    rows with a null key are dropped later, by the expander (section 4.5). *)
Definition group_key (index_columns : list string) (e : event) (r : row)
    : option (list cell) :=
  let r := event_row e r in
  if isna (get "date" r) then None
  else Some ((λ col, get col r) <$> key_columns index_columns).

(** Modelled from the spec: step 3 of [convert_cases_to_time_series], the
    series of one event before counting, one group per counted case. *)
Definition event_series (index_columns : list string) (e : event)
    (cases : list row) : list (list cell) :=
  omap (group_key index_columns e) cases.

(** Modelled from the spec: step 2 of [convert_cases_to_time_series], "the
    count of rows in each group" (a row count, duplicates included). *)
Definition count_rows (k : list cell) (series : list (list cell)) : nat :=
  length (filter (k =.) series).

(** Modelled from the spec: step 4 of [convert_cases_to_time_series], the
    groups of the union of the per-event series, each once.  The order of
    the rows is not part of the contract; the order that [remove_dups]
    leaves is used. *)
Definition group_keys (index_columns : list string) (cases : list row)
    : list (list cell) :=
  remove_dups (e ← events; event_series index_columns e cases).

(** Modelled from the spec: a count column of [convert_cases_to_time_series]
    after the pivot; a group absent from the event's series is left missing
    (step 6, line 84 of the caller, replaces it with zero). *)
Definition count_cell (n : nat) : cell :=
  match n with O => CNull | S _ => CNum (Z.of_nat n) end.

(** Modelled from the spec: the key columns of an output row of
    [convert_cases_to_time_series]. *)
Definition key_row (index_columns : list string) (k : list cell) : row :=
  list_to_map (zip (key_columns index_columns) k).

(** Modelled from the spec: step 4 of [convert_cases_to_time_series], the
    pivot to the named columns [new_<event>]. *)
Definition pivot_row (index_columns : list string) (cases : list row)
    (k : list cell) : row :=
  foldr (λ e r, <[value_column e :=
                    count_cell (count_rows k (event_series index_columns e cases))]> r)
        (key_row index_columns k) events.

(** Modelled from the spec: [convert_cases_to_time_series], steps 1 to 4 of
    section 4.4: one row per (date, group) with the per-event new counts. *)
Definition convert_cases_to_time_series (cases : list row)
    (index_columns : list string) : list row :=
  pivot_row index_columns cases <$> group_keys index_columns cases.

End CaseLine.

(** ** Table operations of lines 81-97 *)

(** Line 82: [data[~data.date.isna()]]. *)
Definition date_notna (r : row) : Prop := isna (get "date" r) = false.

Global Instance date_notna_dec r : Decision (date_notna r).
Proof. unfold date_notna. apply _. Defined.

(** Line 83: [x.date().isoformat()] on the date cell.  Line 82 leaves only
    timestamps in the column; any other value has no [date] method. *)
Definition format_date (r : row) : option row :=
  match get "date" r with
  | CTime t => Some (<["date" := CStr (Iso.isoformat t)]> r)
  | _ => None
  end.

(** Line 84: [data.fillna(0)], every null of every column. *)
Definition fillna (v : cell) (r : row) : row :=
  (λ c, if isna c then v else c) <$> r.

(** Lines 87-88: [data.rename(columns={old: new})]. *)
Definition rename (old new : string) (r : row) : row :=
  match r !! old with
  | Some v => <[new := v]> (delete old r)
  | None => r
  end.

(** Line 89: [x.split(": ")[-1]] on the match string; only a [str] has a
    [split] method. *)
Definition strip_qualifier (r : row) : option row :=
  match get "match_string" r with
  | CStr s => Some (<["match_string" := CStr (Str.last_piece s)]> r)
  | _ => None
  end.

(** Line 95: [concat]: the rows of the tables in order, over the union of
    their columns; a column that a table lacks is null in its rows. *)
Definition table_columns (rows : list row) : gset string := ⋃ (dom <$> rows).

Definition fill_columns (columns : gset string) (r : row) : row :=
  r ∪ gset_to_gmap CNull columns.

Definition concat (tables : list (list row)) : list row :=
  let rows := mjoin tables in
  fill_columns (table_columns rows) <$> rows.

(** Line 95: [dropna(subset=["match_string"])]. *)
Definition match_string_notna (r : row) : Prop := isna (get "match_string" r) = false.

Global Instance match_string_notna_dec r : Decision (match_string_notna r).
Proof. unfold match_string_notna. apply _. Defined.

(** Line 96: [data.match_string != "Repatriate"]. *)
Definition not_repatriate (r : row) : Prop := get "match_string" r ≠ CStr "Repatriate".

Global Instance not_repatriate_dec r : Decision (not_repatriate r).
Proof. unfold not_repatriate. apply _. Defined.

(** ** Reading the output *)

(** The date column of an event in a case row. *)
Definition event_date (e : event) (c : CaseRecord) : option string :=
  match e with
  | confirmed => date_new_confirmed c
  | deceased => date_new_deceased c
  | recovered => date_new_recovered c
  | hospitalized => date_new_hospitalized c
  end.

(** The integer held by a count cell. *)
Definition count_of (c : cell) : Z :=
  match c with CNum n => n | _ => 0 end.

(** The sum of a weight over a list. *)
Definition sum_with {A} (w : A → Z) (l : list A) : Z :=
  foldr (λ x acc, w x + acc) 0 l.

(** The sum of a column over a table. *)
Definition column_sum (col : string) (rows : list row) : Z :=
  sum_with (λ r, count_of (get col r)) rows.

(** The resolution tag of an output row: the sentinels of lines 92-93. *)
Definition region_level (r : row) : Prop := r !! "subregion2_code" = Some CNull.
Definition province_level (r : row) : Prop := r !! "subregion2_code" = Some (CStr EmptyString).

Global Instance region_level_dec r : Decision (region_level r).
Proof. unfold region_level. apply _. Defined.

Global Instance province_level_dec r : Decision (province_level r).
Proof. unfold province_level. apply _. Defined.

(** The spellings that equal "yes" when compared without regard to case. *)
Definition yes_spellings : list string :=
  ["yes"; "yeS"; "yEs"; "yES"; "Yes"; "YeS"; "YEs"; "YES"].

(** The index columns of the call at lines 76-78. *)
Definition index_columns : list string :=
  ["match_string_province"; "match_string_region"].

(** *** The two copies of an aggregated row (lines 87-93) *)

(** The text of a string cell. *)
Definition text_of (c : cell) : string :=
  match c with CStr s => s | _ => EmptyString end.

(** The province-level copy of a row: lines 87 and 93. *)
Definition province_copy (d : row) : row :=
  <["subregion2_code" := CStr EmptyString]> (rename "match_string_province" "match_string" d).

(** The region-level copy of a row whose region is a string: lines 88, 89
    and 92. *)
Definition region_copy (d : row) : row :=
  <["subregion2_code" := CNull]>
    (<["match_string" := CStr (Str.last_piece (text_of (get "match_string_region" d)))]>
       (rename "match_string_region" "match_string" d)).

(** The columns of the concatenation at line 95. *)
Definition output_columns (groups : list row) : gset string :=
  table_columns ((region_copy <$> groups) ++ (province_copy <$> groups)).

(** Lines 95-97 on one row of the concatenation: the row is dropped by one
    of the two filters, or kept with the country code. *)
Definition keep_row (r : row) : option row :=
  if decide (match_string_notna r ∧ not_repatriate r)
  then Some (<["country_code" := CStr "PH"]> r)
  else None.

(** *** Contributions of a row of the table of line 87 to the output *)

(** The columns that lines 87-97 write. *)
Definition region_columns : list string :=
  ["match_string"; "subregion2_code"; "match_string_region"; "country_code"].

Definition province_columns : list string :=
  ["match_string"; "subregion2_code"; "match_string_province"; "country_code"].

(** [y] is the region-level contribution of the row [d]: the region after
    its last ": " as match string, the null sentinel, and every other cell
    of [d]. *)
Definition region_contribution (d y : row) : Prop :=
  ∃ g, d !! "match_string_region" = Some (CStr g) ∧
       y !! "match_string" = Some (CStr (Str.last_piece g)) ∧
       y !! "subregion2_code" = Some CNull ∧
       ∀ col v, col ∉ region_columns → d !! col = Some v → y !! col = Some v.

(** [y] is the province-level contribution of the row [d]: the province cell
    as it is as match string, the empty-string sentinel, and every other
    cell of [d]. *)
Definition province_contribution (d y : row) : Prop :=
  y !! "match_string" = d !! "match_string_province" ∧
  y !! "subregion2_code" = Some (CStr EmptyString) ∧
  ∀ col v, col ∉ province_columns → d !! col = Some v → y !! col = Some v.

(** The match string of a kept row of the concatenation (lines 95-96). *)
Definition key_kept (c : cell) : Prop := c ≠ CNull ∧ c ≠ CStr "Repatriate".

Global Instance key_kept_dec c : Decision (key_kept c).
Proof. unfold key_kept. apply _. Defined.

(** The key of the copy is not the placeholder that line 96 drops. *)
Definition region_kept (d : row) : Prop :=
  Str.last_piece (text_of (get "match_string_region" d)) ≠ "Repatriate".

Definition province_kept (d : row) : Prop :=
  get "match_string_province" d ≠ CStr "Repatriate".

Global Instance region_kept_dec d : Decision (region_kept d).
Proof. unfold region_kept. apply _. Defined.

Global Instance province_kept_dec d : Decision (province_kept d).
Proof. unfold province_kept. apply _. Defined.

(** The key of the province-level copy passes lines 95 and 96. *)
Definition province_key_kept (d : row) : Prop := key_kept (get "match_string_province" d).

Global Instance province_key_kept_dec d : Decision (province_key_kept d).
Proof. unfold province_key_kept. apply _. Defined.

(** The admission flag of a case is one of these spellings. *)
Global Instance admitted_yes_dec (c : CaseRecord) :
  Decision (∃ flag, _hospitalized c = Some flag ∧ flag ∈ yes_spellings).
Proof.
  destruct (_hospitalized c) as [flag |].
  - destruct (decide (flag ∈ yes_spellings)) as [Hin | Hout].
    + left. eauto.
    + right. intros (f & [= <-] & H). done.
  - right. by intros (f & H & _).
Defined.

(** ** [PhilippinesDataSource.parse_dataframes] *)

Section Pipeline.

(** The primitives whose code is outside this source file: the age bucketing
    and the safe date parser of lib/cast.py, which returns a timestamp or
    nothing, and Python's [str.lower]. *)
Variable age_group : cell → cell.
Variable str_lower : string → string.
Variable safe_datetime_parse : cell → option datetime.

(** Line 67. *)
Definition stratify_age (c : CaseRecord) : CaseRecord :=
  set_age (age_group (age c)) c.

(** Line 81: [data.date.apply(safe_datetime_parse)]. *)
Definition parse_date (r : row) : row :=
  <["date" := from_option CTime CNull (safe_datetime_parse (get "date" r))]> r.

(** Lines 47-73: the case table handed to the aggregation. *)
Definition prepare_cases (cases : list CaseRecord) : option (list row) :=
  let cases := impute_recovered <$> cases in                          (* 48-51 *)
  let cases := impute_deceased <$> cases in                           (* 54-57 *)
  cases ← HospitalizationInferrer cases;                              (* 60-64 *)
  let cases := stratify_age <$> cases in                              (* 67 *)
  cases ← mapM (lower_sex str_lower) cases;                           (* 70 *)
  Some (public_columns <$> cases).                                    (* 73 *)

(** Lines 81-84. *)
Definition normalize_dates (data : list row) : option (list row) :=
  let data := parse_date <$> data in                                  (* 81 *)
  let data := filter date_notna data in                               (* 82 *)
  mapM format_date data.                                              (* 83 *)

(** Lines 87-97. *)
Definition expand_resolutions (data : list row) : option (list row) :=
  let l3 := rename "match_string_province" "match_string" <$> data in (* 87 *)
  let l2 := rename "match_string_region" "match_string" <$> data in   (* 88 *)
  l2 ← mapM strip_qualifier l2;                                       (* 89 *)
  let l2 := <["subregion2_code" := CNull]> <$> l2 in                  (* 92 *)
  let l3 := <["subregion2_code" := CStr EmptyString]> <$> l3 in                (* 93 *)
  let data := filter match_string_notna (concat [l2; l3]) in          (* 95 *)
  let data := filter not_repatriate data in                           (* 96 *)
  Some (<["country_code" := CStr "PH"]> <$> data).                    (* 97 *)

(** Lines 47-83: the aggregated table with normalized dates. *)
Definition dated_series (cases : list CaseRecord) : option (list row) :=
  cases ← prepare_cases cases;
  let data := CaseLine.convert_cases_to_time_series cases index_columns in (* 76-78 *)
  normalize_dates data.                                               (* 81-83 *)

Definition parse_dataframes (cases : list CaseRecord) : option (list row) :=
  data ← dated_series cases;
  let data := fillna (CNum 0) <$> data in                             (* 84 *)
  expand_resolutions data.                                            (* 87-97 *)

(** *** What the properties count *)

(** What lines 81-83 make of one aggregated row: nothing when its date does
    not parse, the row with the calendar date in ISO format otherwise. *)
Definition normalized (r : row) : option row :=
  t ← safe_datetime_parse (get "date" r);
  Some (<["date" := CStr (Iso.isoformat t)]> r).

(** Lines 60-64 on one row of a table whose admission column is text. *)
Definition infer_hospitalized (c : CaseRecord) : CaseRecord :=
  set_date_new_hospitalized
    (if lower_is_yes (_hospitalized c) then date_new_confirmed c else None) c.

(** The case row after the imputation and inference steps. *)
Definition imputed (c : CaseRecord) : CaseRecord :=
  infer_hospitalized (DateImputer c).

(** Lines 47-70 on one case row of such a table; nothing when line 70
    raises. *)
Definition prepared (c : CaseRecord) : option CaseRecord :=
  lower_sex str_lower (stratify_age (imputed c)).

(** The grouping tuple of a prepared case for an event. *)
Definition key_of (e : event) (c : CaseRecord) : list cell :=
  [of_text (event_date e c); of_text (match_string_province c);
   of_text (match_string_region c); age c; of_text (sex c)].

(** [dated e c]: the date of event [e] of case [c], after imputation, is
    present and parses as a calendar date. *)
Definition dated (e : event) (c : CaseRecord) : Prop :=
  ∃ s, event_date e (imputed c) = Some s ∧ is_Some (safe_datetime_parse (CStr s)).

(** A case counted for an event at the province level, and at the region
    level: its date counts and the match string of the level is not the
    placeholder dropped at line 96. *)
Definition counted_at_province (e : event) (c : CaseRecord) : Prop :=
  dated e c ∧ match_string_province c ≠ Some "Repatriate".

Definition counted_at_region (e : event) (c : CaseRecord) : Prop :=
  dated e c ∧ Str.last_piece <$> match_string_region c ≠ Some "Repatriate".

(** The same conditions read on the group of a prepared case. *)
Definition key_at_province (k : list cell) : Prop :=
  is_Some (safe_datetime_parse (k !!! 0%nat)) ∧ k !!! 1%nat ≠ CStr "Repatriate".

Definition key_at_region (k : list cell) : Prop :=
  is_Some (safe_datetime_parse (k !!! 0%nat)) ∧
  Str.last_piece (text_of (k !!! 2%nat)) ≠ "Repatriate".

(** The same conditions read on a row of the aggregated table. *)
Definition row_at_province (d : row) : Prop :=
  is_Some (safe_datetime_parse (get "date" d)) ∧ province_kept d.

Definition row_at_region (d : row) : Prop :=
  is_Some (safe_datetime_parse (get "date" d)) ∧ region_kept d.

Global Instance dated_dec e c : Decision (dated e c).
Proof.
  unfold dated. destruct (event_date e (imputed c)) as [s |].
  - destruct (decide (is_Some (safe_datetime_parse (CStr s)))) as [Hs | Hs].
    + left. eauto.
    + right. intros (s' & [= <-] & H). done.
  - right. intros (s' & H & _). done.
Defined.

Global Instance counted_at_province_dec e c : Decision (counted_at_province e c).
Proof. unfold counted_at_province. apply _. Defined.

Global Instance counted_at_region_dec e c : Decision (counted_at_region e c).
Proof. unfold counted_at_region. apply _. Defined.

Global Instance key_at_province_dec k : Decision (key_at_province k).
Proof. unfold key_at_province. apply _. Defined.

Global Instance key_at_region_dec k : Decision (key_at_region k).
Proof. unfold key_at_region. apply _. Defined.

Global Instance row_at_province_dec d : Decision (row_at_province d).
Proof. unfold row_at_province. apply _. Defined.

Global Instance row_at_region_dec d : Decision (row_at_region d).
Proof. unfold row_at_region. apply _. Defined.

(** Lines 81-97 on an aggregated table. *)
Definition standardize (data : list row) : option (list row) :=
  data ← normalize_dates data;
  expand_resolutions (fillna (CNum 0) <$> data).

End Pipeline.

(** ** Instances of the primitives, for the examples

    [Str.lower] stands for [str.lower]: the labels of the examples are
    ASCII. *)

(** Ten-year age bands, open above 90. *)
Definition decade_age_group (c : cell) : cell :=
  match c with
  | CNum n =>
      if n <? 0 then CNull
      else if 90 <=? n then CStr "90-"
      else CStr (default EmptyString (["0-9"; "10-19"; "20-29"; "30-39"; "40-49"; "50-59";
                              "60-69"; "70-79"; "80-89"] !! Z.to_nat (n / 10)))
  | _ => CNull
  end.

(** A parser of [YYYY-MM-DD], optionally followed by [ HH:MM:SS]; it returns
    a timestamp only when the fields name a real date and time. *)
Definition iso_datetime_parse (c : cell) : option datetime :=
  match c with
  | CStr s =>
      match Iso.read_date (substring 0 10 s) with
      | Some (y, m, d) =>
          match list_ascii_of_string (substring 10 (String.length s - 10) s) with
          | [] => Some (mk_datetime y m d 0 0 0)
          | [" "%char; h1; h2; ":"%char; m1; m2; ":"%char; s1; s2] =>
              match Iso.number [h1; h2], Iso.number [m1; m2], Iso.number [s1; s2] with
              | Some hh, Some mm, Some ss => Some (mk_datetime y m d hh mm ss)
              | _, _, _ => None
              end
          | _ => None
          end ≫= λ t, if Iso.valid_datetimeb t then Some t else None
      | None => None
      end
  | _ => None
  end.

(** ** Sample case rows *)

(** The scenario of section 8 of the specification. *)
Definition manila_case : CaseRecord :=
  {| match_string_province := Some "Manila";
     match_string_region := Some "NCR: National Capital Region";
     date_new_deceased := None;
     date_new_confirmed := Some "2020-04-01";
     date_new_recovered := None;
     _date_estimate := Some "2020-04-10";
     _hospitalized := Some "yes";
     _prognosis := Some "Recovered";
     age := CNum 45;
     sex := Some "Female";
     date_new_hospitalized := None |}.

Definition set_province (v : option string) (c : CaseRecord) : CaseRecord :=
  mk_case v (match_string_region c) (date_new_deceased c)
    (date_new_confirmed c) (date_new_recovered c) (_date_estimate c) (_hospitalized c)
    (_prognosis c) (age c) (sex c) (date_new_hospitalized c).

Definition set_region (v : option string) (c : CaseRecord) : CaseRecord :=
  mk_case (match_string_province c) v (date_new_deceased c)
    (date_new_confirmed c) (date_new_recovered c) (_date_estimate c) (_hospitalized c)
    (_prognosis c) (age c) (sex c) (date_new_hospitalized c).

(** The same case with the sex label missing. *)
Definition missing_sex_case : CaseRecord := set_sex None manila_case.

(** The same case with only the region known. *)
Definition region_only_case : CaseRecord := set_province None manila_case.

(** The same case with a blank province string. *)
Definition blank_province_case : CaseRecord := set_province (Some EmptyString) manila_case.

(** A repatriated case: both geographic fields hold the placeholder. *)
Definition repatriate_case : CaseRecord :=
  set_region (Some "Repatriate") (set_province (Some "Repatriate") manila_case).

Definition set_admitted (v : option string) (c : CaseRecord) : CaseRecord :=
  mk_case (match_string_province c) (match_string_region c) (date_new_deceased c)
    (date_new_confirmed c) (date_new_recovered c) (_date_estimate c) v
    (_prognosis c) (age c) (sex c) (date_new_hospitalized c).

(** The same case with the admission flag missing. *)
Definition missing_flag_case : CaseRecord := set_admitted None manila_case.

(** An aggregated table with a date that carries a time of day and a date
    that is not in ISO format. *)
Definition sample_series : list row :=
  [ {[ "date" := CStr "2020-04-01 12:30:00"; "new_confirmed" := CNum 2 ]};
    {[ "date" := CStr "01/04/2020"; "new_confirmed" := CNum 1 ]} ].

(** What the examples show of an output row: level, match string, date, and
    the counts (confirmed, deceased, recovered, hospitalized). *)
Definition row_summary (y : row) : cell * cell * cell * list Z :=
  (get "subregion2_code" y, get "match_string" y, get "date" y,
   List.map (λ e, count_of (get (value_column e) y))
     [confirmed; deceased; recovered; hospitalized]).

Definition run_summary (out : option (list row))
    : option (list (cell * cell * cell * list Z)) :=
  match out with
  | Some rows => Some (List.map row_summary rows)
  | None => None
  end.

(** A table whose admission column was left empty. *)
Definition missing_flags_table : list CaseRecord :=
  [missing_flag_case; set_province (Some "Cebu") missing_flag_case].

(** ** Further operations of the source, and their inverses *)

(** [": ".join(pieces)], the inverse of the split of line 89. *)
Fixpoint join_colon_space (pieces : list string) : string :=
  match pieces with
  | [] => EmptyString
  | x :: rest =>
      match rest with
      | [] => x
      | _ :: _ => x +:+ ": " +:+ join_colon_space rest
      end
  end.

(** A row of the case table before line 73, with all its eleven columns. *)
Definition case_row (c : CaseRecord) : row :=
  {[ "match_string_province" := of_text (match_string_province c);
     "match_string_region" := of_text (match_string_region c);
     "date_new_deceased" := of_text (date_new_deceased c);
     "date_new_confirmed" := of_text (date_new_confirmed c);
     "date_new_recovered" := of_text (date_new_recovered c);
     "_date_estimate" := of_text (_date_estimate c);
     "_hospitalized" := of_text (_hospitalized c);
     "_prognosis" := of_text (_prognosis c);
     "age" := age c;
     "sex" := of_text (sex c);
     "date_new_hospitalized" := of_text (date_new_hospitalized c) ]}.

(** [col.startswith("_")]. *)
Definition is_private (col : string) : bool :=
  match col with
  | String a _ => Ascii.eqb a "_"
  | EmptyString => false
  end.

(** Line 73 on a row: [[col for col in cases.columns if not col.startswith("_")]]. *)
Definition drop_private (r : row) : row :=
  filter (λ kv, is_private kv.1 = false) r.

(** An aggregated table: a plain row, a row with a time of day in its date
    and the placeholder as region, a row whose province is null, and a row
    whose date does not parse. *)
Definition sample_row (date : string) (province region : cell) (n : Z) : row :=
  {[ "date" := CStr date; "match_string_province" := province;
     "match_string_region" := region; "age" := CStr "40-49"; "sex" := CStr "female";
     "new_confirmed" := CNum n; "new_deceased" := CNull;
     "new_recovered" := CNull; "new_hospitalized" := CNull ]}.

Definition sample_table : list row :=
  [ sample_row "2020-04-01" (CStr "Manila") (CStr "NCR: National Capital Region") 2;
    sample_row "2020-04-02 08:15:00" (CStr "Cebu") (CStr "ROF: Repatriate") 1;
    sample_row "2020-04-03" CNull (CStr "Region VII: Central Visayas") 3;
    sample_row "03/04/2020" (CStr "Davao") (CStr "Region XI: Davao Region") 1 ].

(** One aggregated row whose province is a blank string. *)
Definition blank_province_table : list row :=
  [ sample_row "2020-04-01" (CStr EmptyString) (CStr "NCR: National Capital Region") 1 ].

(** One aggregated row whose region holds the placeholder. *)
Definition placeholder_region_table : list row :=
  [ sample_row "2020-04-02" (CStr "Cebu") (CStr "ROF: Repatriate") 1 ].

(** * Properties *)

Example lower_Yes : Str.lower "YeS" = "yes".
Proof. reflexivity. Qed.

Example split_region :
  Str.split_colon_space "NCR: National Capital Region" = ["NCR"; "National Capital Region"].
Proof. reflexivity. Qed.

Example split_twice : Str.split_colon_space "a: b: c: " = ["a"; "b"; "c"; EmptyString].
Proof. reflexivity. Qed.

Example split_colon_only : Str.split_colon_space "a:b :c" = ["a:b :c"].
Proof. reflexivity. Qed.

Example isoformat_example :
  Iso.isoformat (mk_datetime 2020 4 1 13 30 0) = "2020-04-01".
Proof. reflexivity. Qed.

Example read_date_example : Iso.read_date "2020-04-01" = Some (2020, 4, 1).
Proof. reflexivity. Qed.

Example read_date_feb30 : Iso.read_date "2021-02-30" = None.
Proof. reflexivity. Qed.

(** ** The match string of a region *)

Section Qualifier.

Lemma string_of_list_ascii_snoc (l : list ascii) (a : ascii) (s : string) :
  string_of_list_ascii (l ++ [a]) +:+ s = string_of_list_ascii l +:+ String a s.
Proof.
  induction l as [| b l IH]; [done |].
  change (String b (string_of_list_ascii (l ++ [a]) +:+ s) =
          String b (string_of_list_ascii l +:+ String a s)).
  by rewrite IH.
Qed.

Lemma append_empty_r (s : string) : s +:+ EmptyString = s.
Proof.
  induction s as [| a s IH]; [done |].
  change (String a (s +:+ EmptyString) = String a s). by rewrite IH.
Qed.

Lemma sep_eqb (a b : ascii) :
  (Ascii.eqb a ":" && Ascii.eqb b " ")%bool = true → a = ":"%char ∧ b = " "%char.
Proof. by intros [Ha%Ascii.eqb_eq Hb%Ascii.eqb_eq]%andb_true_iff. Qed.

(** The last piece of a split: the whole text when there is no separator,
    what follows a separator and holds none otherwise. *)
Lemma split_go_last (n : nat) : ∀ (s : string) (cur : list ascii),
  (String.length s ≤ n)%nat →
  ∃ t, last (Str.split_go cur s) = Some t ∧
       ((Str.has_sep s = false ∧ t = string_of_list_ascii (rev cur) +:+ s) ∨
        (Str.has_sep t = false ∧ ∃ pre, s = pre +:+ ": " +:+ t)).
Proof.
  induction n as [| n IH]; intros s cur Hlen.
  - destruct s; [| simpl in Hlen; lia]. simpl. eexists. split; [done |].
    left. by rewrite append_empty_r.
  - destruct s as [| a [| b s]].
    + simpl. eexists. split; [done |]. left. by rewrite append_empty_r.
    + simpl. eexists. split; [done |]. left. split; [done |].
      by rewrite <- string_of_list_ascii_snoc, append_empty_r.
    + cbn [Str.split_go Str.has_sep].
      destruct (Ascii.eqb a ":" && Ascii.eqb b " ")%bool eqn:Hsep.
      * apply sep_eqb in Hsep as [-> ->].
        destruct (IH s [] ltac:(simpl in Hlen; lia)) as (t & Ht & Hcase).
        exists t. rewrite last_cons, Ht. split; [done |]. right.
        destruct Hcase as [[Hno ->] | [Hno [pre ->]]].
        -- split; [done |]. by exists EmptyString.
        -- split; [done |]. by exists (String ":" (String " " pre)).
      * destruct (IH (String b s) (a :: cur) ltac:(simpl in Hlen |- *; lia))
          as (t & Ht & Hcase).
        exists t. split; [done |].
        destruct Hcase as [[Hno ->] | [Hno [pre Hpre]]].
        -- left. split; [done |]. simpl rev. by rewrite string_of_list_ascii_snoc.
        -- right. split; [done |]. exists (String a pre). simpl. by rewrite Hpre.
Qed.

(** [x.split(": ")[-1]] keeps the text after the last ": " of [x], and all
    of [x] when there is none. *)
Lemma last_piece_spec (s : string) :
  Str.has_sep (Str.last_piece s) = false ∧
  ((Str.has_sep s = false ∧ Str.last_piece s = s) ∨
   ∃ pre, s = pre +:+ ": " +:+ Str.last_piece s).
Proof.
  unfold Str.last_piece, Str.split_colon_space.
  destruct (split_go_last (String.length s) s [] (le_n _)) as (t & -> & Hcase).
  simpl. destruct Hcase as [[Hno ->] | [Hno Hpre]].
  - split; [done |]. by left.
  - split; [done |]. by right.
Qed.

End Qualifier.

(** ** DateImputer *)

Section Imputation.

Implicit Types c : CaseRecord.

Lemma text_isna_true (o : option string) : text_isna o = true ↔ o = None.
Proof. destruct o; simpl; split; congruence. Qed.

Lemma text_eq_true (o : option string) lit : text_eq o lit = true ↔ o = Some lit.
Proof. unfold text_eq. apply bool_decide_eq_true. Qed.

Lemma nan_recovered_mask_spec c :
  nan_recovered_mask c = true ↔
  date_new_recovered c = None ∧ _prognosis c = Some "Recovered".
Proof.
  unfold nan_recovered_mask.
  by rewrite andb_true_iff, text_isna_true, text_eq_true.
Qed.

Lemma nan_deceased_mask_spec c :
  nan_deceased_mask c = true ↔
  date_new_deceased c = None ∧ _prognosis c = Some "Died".
Proof.
  unfold nan_deceased_mask.
  by rewrite andb_true_iff, text_isna_true, text_eq_true.
Qed.

(** The deceased mask does not read the column that the first assignment
    writes. *)
Lemma nan_deceased_mask_impute_recovered c :
  nan_deceased_mask (impute_recovered c) = nan_deceased_mask c.
Proof. unfold impute_recovered. by destruct (nan_recovered_mask c). Qed.

(** C5. DateImputer contract: [date_new_recovered] becomes the report-date
    estimate exactly when it is missing and the removal category is
    "Recovered", and keeps its value otherwise; [date_new_deceased] likewise
    with "Died"; the nine other columns are unchanged. *)
Theorem DateImputer_contract c :
  date_new_recovered (DateImputer c) =
    (if decide (date_new_recovered c = None ∧ _prognosis c = Some "Recovered")
     then _date_estimate c else date_new_recovered c) ∧
  date_new_deceased (DateImputer c) =
    (if decide (date_new_deceased c = None ∧ _prognosis c = Some "Died")
     then _date_estimate c else date_new_deceased c) ∧
  match_string_province (DateImputer c) = match_string_province c ∧
  match_string_region (DateImputer c) = match_string_region c ∧
  date_new_confirmed (DateImputer c) = date_new_confirmed c ∧
  _date_estimate (DateImputer c) = _date_estimate c ∧
  _hospitalized (DateImputer c) = _hospitalized c ∧
  _prognosis (DateImputer c) = _prognosis c ∧
  age (DateImputer c) = age c ∧
  sex (DateImputer c) = sex c ∧
  date_new_hospitalized (DateImputer c) = date_new_hospitalized c.
Proof.
  unfold DateImputer, impute_deceased.
  rewrite nan_deceased_mask_impute_recovered.
  unfold impute_recovered.
  destruct (nan_recovered_mask c) eqn:Hr, (nan_deceased_mask c) eqn:Hd;
    repeat case_decide; simpl;
    rewrite <- ?nan_recovered_mask_spec, <- ?nan_deceased_mask_spec in *;
    repeat split; congruence.
Qed.

Lemma impute_recovered_idem c :
  impute_recovered (impute_recovered c) = impute_recovered c.
Proof.
  unfold impute_recovered.
  destruct (nan_recovered_mask c) eqn:Hm; [| by rewrite Hm].
  by destruct (nan_recovered_mask (set_date_new_recovered _ c)), c.
Qed.

Lemma impute_deceased_idem c :
  impute_deceased (impute_deceased c) = impute_deceased c.
Proof.
  unfold impute_deceased.
  destruct (nan_deceased_mask c) eqn:Hm; [| by rewrite Hm].
  by destruct (nan_deceased_mask (set_date_new_deceased _ c)), c.
Qed.

(** The two assignments write different columns and read none that the other
    writes, so they commute. *)
Lemma impute_comm c :
  impute_recovered (impute_deceased c) = impute_deceased (impute_recovered c).
Proof.
  destruct c as [p g dd dc dr est hosp prog a x dh].
  unfold impute_recovered, impute_deceased, nan_recovered_mask, nan_deceased_mask,
    set_date_new_recovered, set_date_new_deceased; simpl.
  destruct dd, dr, (text_eq prog "Died") eqn:Hd, (text_eq prog "Recovered") eqn:Hr;
    simpl; rewrite ?Hd, ?Hr; reflexivity.
Qed.

(** C6. Imputation idempotence: the DateImputer applied to its own result
    changes nothing, on a record and on a whole table. *)
Theorem DateImputer_idempotent :
  (∀ c, DateImputer (DateImputer c) = DateImputer c) ∧
  (∀ cases : list CaseRecord,
      DateImputer <$> (DateImputer <$> cases) = DateImputer <$> cases).
Proof.
  assert (Hrec : ∀ c, DateImputer (DateImputer c) = DateImputer c).
  { intros c. unfold DateImputer.
    rewrite (impute_comm (impute_recovered c)).
    by rewrite impute_recovered_idem, impute_deceased_idem. }
  split; [done |].
  intros cases. rewrite <- list_fmap_compose.
  apply list_fmap_ext. intros _ c _. apply Hrec.
Qed.

End Imputation.

(** ** HospitalizationInferrer *)

Section Hospitalization.

Lemma lower_ascii_y a : Str.lower_ascii a = "y"%char ↔ a = "y"%char ∨ a = "Y"%char.
Proof.
  destruct a as [[] [] [] [] [] [] [] []]; vm_compute;
    split; intros H; try discriminate H; try (destruct H as [H | H]; discriminate H);
    auto.
Qed.

Lemma lower_ascii_e a : Str.lower_ascii a = "e"%char ↔ a = "e"%char ∨ a = "E"%char.
Proof.
  destruct a as [[] [] [] [] [] [] [] []]; vm_compute;
    split; intros H; try discriminate H; try (destruct H as [H | H]; discriminate H);
    auto.
Qed.

Lemma lower_ascii_s a : Str.lower_ascii a = "s"%char ↔ a = "s"%char ∨ a = "S"%char.
Proof.
  destruct a as [[] [] [] [] [] [] [] []]; vm_compute;
    split; intros H; try discriminate H; try (destruct H as [H | H]; discriminate H);
    auto.
Qed.

(** Lowering gives "yes" for the eight spellings and for nothing else. *)
Lemma lower_yes s : Str.lower s = "yes" ↔ s ∈ yes_spellings.
Proof.
  split.
  - destruct s as [| a [| b [| c [| d s]]]]; simpl; try discriminate.
    intros [= Ha%lower_ascii_y Hb%lower_ascii_e Hc%lower_ascii_s].
    unfold yes_spellings.
    destruct Ha as [-> | ->], Hb as [-> | ->], Hc as [-> | ->];
      rewrite !elem_of_cons; tauto.
  - unfold yes_spellings. rewrite !elem_of_cons, elem_of_nil.
    intros H. repeat (destruct H as [-> | H]; [reflexivity |]). done.
Qed.

Lemma lower_is_yes_spec (flag : option string) :
  lower_is_yes flag = true ↔ ∃ s, flag = Some s ∧ s ∈ yes_spellings.
Proof.
  unfold lower_is_yes. rewrite text_eq_true.
  destruct flag as [s |]; simpl.
  - split.
    + intros [= H%lower_yes]. eauto.
    + intros (f & [= <-] & H%lower_yes). by rewrite H.
  - split; [done |]. by intros (f & H & _).
Qed.

Lemma is_text_column_spec (column : list (option string)) :
  is_text_column column = true ↔ column = [] ∨ Exists is_Some column.
Proof. unfold is_text_column. apply bool_decide_eq_true. Qed.

Lemma is_text_column_flags (cases : list CaseRecord) :
  is_text_column (_hospitalized <$> cases) = true ↔
  cases = [] ∨ Exists (λ c, is_Some (_hospitalized c)) cases.
Proof.
  rewrite is_text_column_spec, Exists_fmap. split; (intros [H | H]; [left | by right]).
  - by apply fmap_nil_inv in H.
  - by rewrite H.
Qed.

Lemma is_text_column_float (cases : list CaseRecord) :
  is_text_column (_hospitalized <$> cases) = false ↔
  cases ≠ [] ∧ Forall (λ c, _hospitalized c = None) cases.
Proof.
  rewrite <- not_true_iff_false, is_text_column_flags. split.
  - intros Hno. split; [tauto |].
    apply Forall_forall. intros c Hc.
    destruct (_hospitalized c) as [flag |] eqn:Hflag; [| done].
    destruct Hno. right. apply Exists_exists. exists c. by rewrite Hflag.
  - intros [Hne Hall] [-> | Hex]; [done |].
    apply Exists_exists in Hex as (c & Hc & [flag Hflag]).
    rewrite Forall_forall in Hall. by rewrite (Hall c Hc) in Hflag.
Qed.

(** Lines 60-64 row by row, on a table that has the accessor. *)
Lemma HospitalizationInferrer_rows (cases : list CaseRecord) :
  HospitalizationInferrer cases =
    if is_text_column (_hospitalized <$> cases)
    then Some (infer_hospitalized <$> cases) else None.
Proof.
  unfold HospitalizationInferrer, hospitalized_mask, str_accessor.
  rewrite <- list_fmap_compose.
  change (_hospitalized ∘ set_date_new_hospitalized None) with _hospitalized.
  destruct (is_text_column _); [| done]. simpl. f_equal.
  induction cases as [| c cases IH]; [done |].
  rewrite !fmap_cons. cbn [zip_with]. rewrite IH. f_equal.
  unfold assign_confirmed, infer_hospitalized.
  by destruct (lower_is_yes (_hospitalized c)).
Qed.

(** X16. Lines 60-64 on a table, with the one case in which they raise: on a
    table whose admission column holds a string, or that has no row,
    [date_new_hospitalized] of every row becomes the confirmation date
    exactly when the flag of the row is one of the spellings of "yes", case
    ignored, and null with any other flag or none, every other column
    keeping its value; on a table with rows none of which holds a flag,
    line 61 raises. *)
Theorem HospitalizationInferrer_table (cases : list CaseRecord) :
  match HospitalizationInferrer cases with
  | Some out =>
      (cases = [] ∨ Exists (λ c, is_Some (_hospitalized c)) cases) ∧
      Forall2 (λ c c',
        c' = set_date_new_hospitalized
               (if decide (∃ flag, _hospitalized c = Some flag ∧ flag ∈ yes_spellings)
                then date_new_confirmed c else None) c) cases out
  | None => cases ≠ [] ∧ Forall (λ c, _hospitalized c = None) cases
  end.
Proof.
  rewrite HospitalizationInferrer_rows.
  destruct (is_text_column (_hospitalized <$> cases)) eqn:Htext.
  - split; [by apply is_text_column_flags |].
    apply Forall2_fmap_r, Forall_Forall2_diag, Forall_forall. intros c _.
    unfold compose, infer_hospitalized.
    pose proof (lower_is_yes_spec (_hospitalized c)) as Hyes.
    destruct (lower_is_yes (_hospitalized c)); case_decide as Hflag; try done.
    + destruct Hflag. by apply Hyes.
    + apply Hyes in Hflag. done.
  - by apply is_text_column_float.
Qed.

End Hospitalization.

(** ** ISO-8601 calendar dates *)

Section IsoFormat.

Lemma digit_val_digit n : Iso.digit_val (Iso.digit n) = Some (n mod 10).
Proof.
  unfold Iso.digit_val, Iso.digit.
  assert (0 <= n mod 10 < 10) as Hd by (apply Z.mod_pos_bound; lia).
  rewrite nat_ascii_embedding by lia.
  replace ((48 <=? 48 + Z.to_nat (n mod 10))%nat) with true
    by (symmetry; apply Nat.leb_le; lia).
  replace ((48 + Z.to_nat (n mod 10) <=? 57)%nat) with true
    by (symmetry; apply Nat.leb_le; lia).
  simpl. f_equal. lia.
Qed.

Lemma number_pad2 n :
  0 <= n < 100 →
  Iso.number [Iso.digit (n / 10); Iso.digit n] = Some n.
Proof.
  intros Hn. unfold Iso.number. cbn [Iso.number_go].
  rewrite !digit_val_digit. cbn [Iso.number_go]. f_equal.
  Z.div_mod_to_equations. lia.
Qed.

Lemma number_pad4 n :
  0 <= n < 10000 →
  Iso.number [Iso.digit (n / 10 / 10 / 10); Iso.digit (n / 10 / 10);
              Iso.digit (n / 10); Iso.digit n] = Some n.
Proof.
  intros Hn. unfold Iso.number. cbn [Iso.number_go].
  rewrite !digit_val_digit. cbn [Iso.number_go]. f_equal.
  Z.div_mod_to_equations. lia.
Qed.

Lemma days_in_month_le y m : Iso.days_in_month y m <= 31.
Proof.
  unfold Iso.days_in_month.
  repeat match goal with |- context [if ?b then _ else _] => destruct b end; lia.
Qed.

Lemma isoformat_chars t :
  list_ascii_of_string (Iso.isoformat t) =
    [Iso.digit (year t / 10 / 10 / 10); Iso.digit (year t / 10 / 10);
     Iso.digit (year t / 10); Iso.digit (year t); "-"%char;
     Iso.digit (month t / 10); Iso.digit (month t); "-"%char;
     Iso.digit (day t / 10); Iso.digit (day t)].
Proof. reflexivity. Qed.

(** The string printed for a valid timestamp reads back as its calendar
    date: ten characters [YYYY-MM-DD], nothing of the time of day. *)
Lemma read_date_isoformat t :
  Iso.valid_datetime t →
  Iso.read_date (Iso.isoformat t) = Some (year t, month t, day t).
Proof.
  intros (Hy & Hm & Hd & _).
  pose proof (days_in_month_le (year t) (month t)) as Hle.
  unfold Iso.read_date. rewrite isoformat_chars.
  rewrite number_pad4, !number_pad2 by lia.
  replace (1 <=? year t) with true by (symmetry; apply Z.leb_le; lia).
  replace (1 <=? month t) with true by (symmetry; apply Z.leb_le; lia).
  replace (month t <=? 12) with true by (symmetry; apply Z.leb_le; lia).
  replace (1 <=? day t) with true by (symmetry; apply Z.leb_le; lia).
  replace (day t <=? Iso.days_in_month (year t) (month t)) with true
    by (symmetry; apply Z.leb_le; lia).
  reflexivity.
Qed.

Lemma valid_datetimeb_spec t : Iso.valid_datetimeb t = true → Iso.valid_datetime t.
Proof.
  unfold Iso.valid_datetimeb, Iso.valid_datetime.
  rewrite !andb_true_iff, !Z.leb_le. tauto.
Qed.

End IsoFormat.
Lemma isoformat_length t : String.length (Iso.isoformat t) = 10%nat.
Proof. reflexivity. Qed.

(** ** Table operations *)

(** Lookups through inserts, deletes and maps. *)
Ltac lookups :=
  repeat first
    [ rewrite lookup_insert_eq
    | rewrite lookup_insert_ne by done
    | rewrite lookup_delete_eq
    | rewrite lookup_delete_ne by done
    | rewrite lookup_singleton_eq
    | rewrite lookup_singleton_ne by done
    | rewrite lookup_fmap
    | rewrite lookup_empty ].

(** [x ∉ [a; b; ...]] for distinct literals, and its use as a hypothesis. *)
Ltac solve_notin :=
  cbn; repeat (apply not_elem_of_cons; split; [done |]); apply not_elem_of_nil.

Ltac split_notin H :=
  cbn in H; repeat (apply not_elem_of_cons in H as [? H]).

Section Tables.

Implicit Types r d : row.

Lemma get_insert col v r : get col (<[col := v]> r) = v.
Proof. unfold get. by rewrite lookup_total_insert_eq. Qed.

Lemma get_insert_ne col col' v r : col' ≠ col → get col (<[col' := v]> r) = get col r.
Proof. intros Hne. unfold get. by rewrite lookup_total_insert_ne. Qed.

Lemma get_lookup col r v : r !! col = Some v → get col r = v.
Proof. intros H. unfold get. by rewrite lookup_total_alt, H. Qed.

Lemma lookup_fillna v r col :
  fillna v r !! col = (λ c, if isna c then v else c) <$> r !! col.
Proof. unfold fillna. apply lookup_fmap. Qed.

Lemma mapM_fmap {A B C} (f : B → option C) (g : A → B) (l : list A) :
  mapM f (g <$> l) = mapM (f ∘ g) l.
Proof.
  induction l as [| x l IH]; [done |].
  rewrite fmap_cons. change (mapM f (g x :: (g <$> l))) with
    (y ← f (g x); k ← mapM f (g <$> l); mret (y :: k)).
  by rewrite IH.
Qed.

Lemma mapM_total {A B} (f : A → option B) (g : A → B) (l : list A) :
  Forall (λ x, f x = Some (g x)) l → mapM f l = Some (g <$> l).
Proof.
  induction 1 as [| x l Hx _ IH]; [done |].
  change (mapM f (x :: l)) with (y ← f x; k ← mapM f l; mret (y :: k)).
  by rewrite Hx, IH.
Qed.

End Tables.

(** ** Lists: partial maps, filters and related lists *)

Lemma omap_fmap {A B C} (f : B → option C) (g : A → B) (l : list A) :
  omap f (g <$> l) = omap (f ∘ g) l.
Proof.
  induction l as [| x l IH]; [done |].
  rewrite fmap_cons.
  change (omap f (g x :: (g <$> l))) with
    (match f (g x) with Some y => y :: omap f (g <$> l) | None => omap f (g <$> l) end).
  by rewrite IH.
Qed.

Lemma omap_omap {A B C} (f : A → option B) (g : B → option C) (l : list A) :
  omap g (omap f l) = omap (λ x, f x ≫= g) l.
Proof.
  induction l as [| x l IH]; [done |].
  change (omap f (x :: l)) with
    (match f x with Some y => y :: omap f l | None => omap f l end).
  change (omap (λ x, f x ≫= g) (x :: l)) with
    (match f x ≫= g with
     | Some y => y :: omap (λ x, f x ≫= g) l
     | None => omap (λ x, f x ≫= g) l
     end).
  destruct (f x) as [y |]; [| by rewrite <- IH].
  change (Some y ≫= g) with (g y).
  change (omap g (y :: omap f l)) with
    (match g y with Some z => z :: omap g (omap f l) | None => omap g (omap f l) end).
  by rewrite IH.
Qed.

Lemma Forall2_filter_omap {A B} (R : A → B → Prop) (P : A → Prop)
    `{!∀ x, Decision (P x)} (f : A → option B) (l : list A) :
  (∀ x, x ∈ l → if decide (P x) then ∃ y, f x = Some y ∧ R x y else f x = None) →
  Forall2 R (filter P l) (omap f l).
Proof.
  induction l as [| x l IH]; intros Hl; [constructor |].
  change (omap f (x :: l)) with
    (match f x with Some y => y :: omap f l | None => omap f l end).
  pose proof (Hl x (list_elem_of_here _ _)) as Hx.
  assert (Forall2 R (filter P l) (omap f l)) as Htl.
  { apply IH. intros z Hz. apply Hl. by right. }
  destruct (decide (P x)) as [Hp | Hp].
  - destruct Hx as (y & -> & Hxy). rewrite filter_cons_True by done. by constructor.
  - rewrite Hx. by rewrite filter_cons_False.
Qed.

Lemma length_omap_filter {A B} (f : A → option B) (P : A → Prop)
    `{!∀ x, Decision (P x)} (l : list A) :
  (∀ x, x ∈ l → (is_Some (f x) ↔ P x)) →
  length (omap f l) = length (filter P l).
Proof.
  induction l as [| x l IH]; intros Hl; [done |].
  change (omap f (x :: l)) with
    (match f x with Some y => y :: omap f l | None => omap f l end).
  pose proof (Hl x (list_elem_of_here _ _)) as Hx.
  assert (length (omap f l) = length (filter P l)) as Htl.
  { apply IH. intros z Hz. apply Hl. by right. }
  destruct (decide (P x)) as [Hp | Hp].
  - rewrite filter_cons_True by done. apply Hx in Hp as [y ->]. simpl. by rewrite Htl.
  - rewrite filter_cons_False by done. destruct (f x) as [y |]; [| done].
    destruct Hp. apply Hx. eauto.
Qed.

Lemma filter_fmap_iff {A B} (f : A → B) (P : B → Prop) (Q : A → Prop)
    `{!∀ y, Decision (P y)} `{!∀ x, Decision (Q x)} (l : list A) :
  (∀ x, x ∈ l → (P (f x) ↔ Q x)) → filter P (f <$> l) = f <$> filter Q l.
Proof.
  induction l as [| x l IH]; intros Hl; [done |].
  pose proof (Hl x (list_elem_of_here _ _)) as Hx.
  assert (filter P (f <$> l) = f <$> filter Q l) as Htl.
  { apply IH. intros z Hz. apply Hl. by right. }
  rewrite fmap_cons. destruct (decide (Q x)) as [Hq | Hq].
  - rewrite !filter_cons_True by tauto. by rewrite fmap_cons, Htl.
  - by rewrite !filter_cons_False by tauto.
Qed.

Lemma length_filter_omap_Forall2 {A B K} (R : A → B → Prop) (f : B → option K)
    (P : K → Prop) (Q : A → Prop) `{!∀ k, Decision (P k)} `{!∀ a, Decision (Q a)}
    (l1 : list A) (l2 : list B) :
  Forall2 R l1 l2 →
  (∀ a b, R a b → (Q a ↔ ∃ k, f b = Some k ∧ P k)) →
  length (filter P (omap f l2)) = length (filter Q l1).
Proof.
  intros HR Hiff. induction HR as [| a b l1 l2 Hab _ IH]; [done |].
  change (omap f (b :: l2)) with
    (match f b with Some k => k :: omap f l2 | None => omap f l2 end).
  specialize (Hiff a b Hab).
  destruct (decide (Q a)) as [Hq | Hq].
  - rewrite (filter_cons_True Q) by done.
    apply Hiff in Hq as (k & -> & Hk).
    rewrite filter_cons_True by done. simpl. by rewrite IH.
  - rewrite (filter_cons_False Q) by done.
    destruct (f b) as [k |]; [| done].
    rewrite filter_cons_False; [done |].
    intros Hk. apply Hq, Hiff. eauto.
Qed.

Lemma Forall2_elem_of_l {A B} (R : A → B → Prop) (l : list A) (k : list B) x :
  Forall2 R l k → x ∈ l → ∃ y, y ∈ k ∧ R x y.
Proof.
  intros HR [i Hi]%list_elem_of_lookup.
  destruct (Forall2_lookup_l _ _ _ _ _ HR Hi) as (y & Hy & Hxy).
  exists y. split; [by eapply list_elem_of_lookup_2 | done].
Qed.

Lemma Forall2_elem_of_r {A B} (R : A → B → Prop) (l : list A) (k : list B) y :
  Forall2 R l k → y ∈ k → ∃ x, x ∈ l ∧ R x y.
Proof.
  intros HR [i Hi]%list_elem_of_lookup.
  destruct (Forall2_lookup_r _ _ _ _ _ HR Hi) as (x & Hx & Hxy).
  exists x. split; [by eapply list_elem_of_lookup_2 | done].
Qed.

Lemma filter_all {A} (P : A → Prop) `{!∀ x, Decision (P x)} (l : list A) :
  Forall P l → filter P l = l.
Proof.
  induction 1 as [| x l Hx _ IH]; [done |]. by rewrite filter_cons_True, IH.
Qed.

Lemma filter_none {A} (P : A → Prop) `{!∀ x, Decision (P x)} (l : list A) :
  Forall (λ x, ¬ P x) l → filter P l = [].
Proof.
  induction 1 as [| x l Hx _ IH]; [done |]. by rewrite filter_cons_False.
Qed.

Lemma length_omap_le {A B} (f : A → option B) (l : list A) :
  (length (omap f l) ≤ length l)%nat.
Proof.
  induction l as [| z l IH]; [done |].
  change (omap f (z :: l)) with
    (match f z with Some w => w :: omap f l | None => omap f l end).
  destruct (f z); simpl; lia.
Qed.

(** ** Sums and counts *)

Section Counting.

Context {A : Type}.
Implicit Types (w : A → Z) (l : list A).

Lemma sum_with_cons w x l : sum_with w (x :: l) = w x + sum_with w l.
Proof. done. Qed.

Lemma sum_with_app w l1 l2 : sum_with w (l1 ++ l2) = sum_with w l1 + sum_with w l2.
Proof. induction l1 as [| x l1 IH]; simpl; [done |]. rewrite IH. lia. Qed.

Lemma sum_with_ext w1 w2 l :
  (∀ x, x ∈ l → w1 x = w2 x) → sum_with w1 l = sum_with w2 l.
Proof.
  induction l as [| x l IH]; intros Hw; simpl; [done |].
  rewrite Hw, IH; [done | | left]. intros y Hy. apply Hw. by right.
Qed.

Lemma sum_with_zero l : sum_with (λ _, 0) l = 0.
Proof. induction l as [| x l IH]; simpl; [done |]. by rewrite IH. Qed.

Lemma sum_with_plus w1 w2 l :
  sum_with (λ x, w1 x + w2 x) l = sum_with w1 l + sum_with w2 l.
Proof. induction l as [| x l IH]; simpl; [done |]. rewrite IH. lia. Qed.

(** Over a duplicate-free list, only the entry equal to [x] counts. *)
Lemma sum_with_indicator `{!EqDecision A} (x : A) (v : Z) l :
  NoDup l → x ∈ l → sum_with (λ k, if decide (k = x) then v else 0) l = v.
Proof.
  induction 1 as [| y l Hy _ IH]; intros Hx; [by apply elem_of_nil in Hx |].
  simpl. destruct (decide (y = x)) as [-> | Hne].
  - rewrite (sum_with_ext _ (λ _, 0)), sum_with_zero; [lia |].
    intros k Hk. case_decide; [by subst | done].
  - rewrite IH; [lia |]. apply elem_of_cons in Hx as [-> | Hx]; done.
Qed.

End Counting.

Lemma sum_with_filter_omap {A B} (g : B → option A) (Q : A → Prop)
    `{!∀ y, Decision (Q y)} (w : A → Z) (l : list B) :
  sum_with w (filter Q (omap g l)) =
  sum_with (λ x, match g x with
                 | Some y => if decide (Q y) then w y else 0
                 | None => 0
                 end) l.
Proof.
  induction l as [| x l IH]; [done |].
  rewrite sum_with_cons, <- IH.
  change (omap g (x :: l)) with
    (match g x with Some y => y :: omap g l | None => omap g l end).
  destruct (g x) as [y |]; [| done].
  destruct (decide (Q y)).
  - by rewrite filter_cons_True, sum_with_cons.
  - by rewrite filter_cons_False.
Qed.

(** The counts of the groups, summed over the distinct groups that satisfy a
    predicate, are the number of series entries that satisfy it. *)
Lemma sum_count_rows (P : list cell → Prop) `{!∀ k, Decision (P k)}
    (ks series : list (list cell)) :
  NoDup ks → (∀ k, k ∈ series → k ∈ ks) →
  sum_with (λ k, if decide (P k)
                 then Z.of_nat (CaseLine.count_rows k series) else 0) ks =
  Z.of_nat (length (filter P series)).
Proof.
  intros Hnd. unfold CaseLine.count_rows.
  induction series as [| x series IH]; intros Hin.
  - rewrite (sum_with_ext _ (λ _, 0)), sum_with_zero; [done |].
    intros k _. by case_decide.
  - rewrite (sum_with_ext _
      (λ k, (if decide (P k) then Z.of_nat (length (filter (k =.) series)) else 0)
            + (if decide (k = x) then (if decide (P x) then 1 else 0) else 0))).
    + rewrite sum_with_plus, IH, sum_with_indicator; [| done | apply Hin; left |].
      * destruct (decide (P x)).
        -- rewrite filter_cons_True by done. simpl. lia.
        -- rewrite filter_cons_False by done. lia.
      * intros k Hk. apply Hin. by right.
    + intros k _. destruct (decide (k = x)) as [-> | Hne].
      * rewrite filter_cons_True by done. simpl. case_decide; lia.
      * rewrite filter_cons_False by done. case_decide; lia.
Qed.

Lemma sum_with_omap {A B} (f : B → option A) (w : A → Z) (l : list B) :
  sum_with w (omap f l) = sum_with (λ x, from_option w 0 (f x)) l.
Proof.
  induction l as [| x l IH]; [done |].
  rewrite sum_with_cons, <- IH.
  change (omap f (x :: l)) with
    (match f x with Some y => y :: omap f l | None => omap f l end).
  by destruct (f x).
Qed.

Lemma sum_with_filter {A} (Q : A → Prop) `{!∀ x, Decision (Q x)} (w : A → Z)
    (l : list A) :
  sum_with w (filter Q l) = sum_with (λ x, if decide (Q x) then w x else 0) l.
Proof.
  induction l as [| x l IH]; [done |].
  rewrite sum_with_cons, <- IH. destruct (decide (Q x)).
  - by rewrite filter_cons_True, sum_with_cons.
  - by rewrite filter_cons_False.
Qed.

Lemma sum_with_fmap {A B} (f : B → A) (w : A → Z) (l : list B) :
  sum_with w (f <$> l) = sum_with (w ∘ f) l.
Proof.
  induction l as [| x l IH]; [done |].
  rewrite fmap_cons, !sum_with_cons. by rewrite IH.
Qed.

(** ** Date normalization (lines 81-83) *)

Section Dates.

Variable safe_datetime_parse : cell → option datetime.

(** Every timestamp is a valid one: the invariant of Python's [datetime]. *)
Hypothesis parse_valid :
  ∀ c t, safe_datetime_parse c = Some t → Iso.valid_datetime t.

Lemma normalize_dates_omap (data : list row) :
  normalize_dates safe_datetime_parse data =
    Some (omap (normalized safe_datetime_parse) data).
Proof.
  unfold normalize_dates.
  induction data as [| r data IH]; [done |].
  rewrite fmap_cons. unfold normalized at 1. simpl omap.
  destruct (safe_datetime_parse (get "date" r)) as [t |] eqn:Hp.
  - rewrite filter_cons_True.
    2:{ unfold date_notna, parse_date. by rewrite get_insert, Hp. }
    simpl. rewrite IH. simpl.
    unfold format_date, parse_date at 1. rewrite get_insert, Hp. simpl.
    unfold parse_date. by rewrite insert_insert_eq.
  - rewrite filter_cons_False; [apply IH |].
    unfold date_notna, parse_date. by rewrite get_insert, Hp.
Qed.

(** The rows that lines 81-83 return, against the rows whose date parses. *)
Lemma normalize_dates_rows (data : list row) :
  Forall2 (λ d y, d ∈ data ∧ ∃ t,
             safe_datetime_parse (get "date" d) = Some t ∧
             y = <["date" := CStr (Iso.isoformat t)]> d)
    (filter (λ d, is_Some (safe_datetime_parse (get "date" d))) data)
    (omap (normalized safe_datetime_parse) data).
Proof.
  apply Forall2_filter_omap. intros d Hd. unfold normalized.
  destruct (safe_datetime_parse (get "date" d)) as [t |] eqn:Hp.
  - rewrite decide_True by eauto. cbn. eauto 6.
  - rewrite decide_False; [done |]. by intros [? ?].
Qed.

(** C8. Unparseable-date handling: lines 81-83 raise no error on any
    aggregated table; the rows of the result are, in order, the rows whose
    date parses, a row whose date does not parse contributing nothing; and
    each of them is the input row with its date replaced by a ten-character
    string that reads as [YYYY-MM-DD], the year, month and day being those
    of the parsed timestamp and its time of day gone. *)
Theorem normalize_dates_drops_and_formats (data : list row) :
  ∃ out,
    normalize_dates safe_datetime_parse data = Some out ∧
    Forall2 (λ d y, ∃ t s,
               safe_datetime_parse (get "date" d) = Some t ∧
               y = <["date" := CStr s]> d ∧
               String.length s = 10%nat ∧
               Iso.read_date s = Some (year t, month t, day t))
      (filter (λ d, is_Some (safe_datetime_parse (get "date" d))) data) out.
Proof.
  eexists. split; [apply normalize_dates_omap |].
  eapply Forall2_impl; [apply normalize_dates_rows |].
  intros d y (_ & t & Hp & ->). exists t, (Iso.isoformat t).
  split; [done |]. split; [done |]. split; [apply isoformat_length |].
  apply read_date_isoformat. by eapply parse_valid.
Qed.

End Dates.

(** ** The two copies and the filters (lines 87-97) *)

Section Copies.

Implicit Types (d r : row) (col : string).

Lemma rename_present old new d v :
  d !! old = Some v → rename old new d = <[new := v]> (delete old d).
Proof. intros H. unfold rename. by rewrite H. Qed.

Lemma province_copy_lookup d v :
  d !! "match_string_province" = Some v →
  province_copy d !! "match_string" = Some v ∧
  province_copy d !! "subregion2_code" = Some (CStr EmptyString) ∧
  province_copy d !! "match_string_province" = None ∧
  ∀ col, col ∉ ["match_string"; "subregion2_code"; "match_string_province"] →
         province_copy d !! col = d !! col.
Proof.
  intros Hp. unfold province_copy. rewrite (rename_present _ _ _ _ Hp).
  repeat split; [by lookups .. |].
  intros col Hcol. split_notin Hcol. by lookups.
Qed.

Lemma region_copy_lookup d g :
  d !! "match_string_region" = Some (CStr g) →
  region_copy d !! "match_string" = Some (CStr (Str.last_piece g)) ∧
  region_copy d !! "subregion2_code" = Some CNull ∧
  region_copy d !! "match_string_region" = None ∧
  ∀ col, col ∉ ["match_string"; "subregion2_code"; "match_string_region"] →
         region_copy d !! col = d !! col.
Proof.
  intros Hg. unfold region_copy.
  rewrite (rename_present _ _ _ _ Hg), (get_lookup _ _ _ Hg). cbn [text_of].
  repeat split; [by lookups .. |].
  intros col Hcol. split_notin Hcol. by lookups.
Qed.

(** Line 89 does not raise on a table whose regions are strings. *)
Lemma strip_qualifier_regions (data : list row) :
  Forall (λ d, ∃ g, d !! "match_string_region" = Some (CStr g)) data →
  <["subregion2_code" := CNull]> <$>
    (default [] (mapM strip_qualifier
                   (rename "match_string_region" "match_string" <$> data))) =
    region_copy <$> data ∧
  is_Some (mapM strip_qualifier (rename "match_string_region" "match_string" <$> data)).
Proof.
  intros Hall. rewrite mapM_fmap.
  rewrite (mapM_total _
    (λ d, <["match_string" := CStr (Str.last_piece (text_of (get "match_string_region" d)))]>
            (rename "match_string_region" "match_string" d))).
  - split; [| done]. simpl. by rewrite <- list_fmap_compose.
  - eapply Forall_impl; [exact Hall |]. intros d [g Hg]. simpl.
    unfold strip_qualifier. rewrite (rename_present _ _ _ _ Hg), get_insert.
    by rewrite (get_lookup _ _ _ Hg).
Qed.

Lemma fill_columns_lookup columns r col v :
  r !! col = Some v → fill_columns columns r !! col = Some v.
Proof. intros H. unfold fill_columns. by apply lookup_union_Some_l. Qed.

Lemma fill_columns_missing columns r col :
  r !! col = None → col ∈ columns → fill_columns columns r !! col = Some CNull.
Proof.
  intros H Hin. unfold fill_columns.
  rewrite lookup_union_r by done. by apply lookup_gset_to_gmap_Some.
Qed.

(** Lines 95-97 on the rows of the concatenation. *)
Lemma filters_keep_row (rows : list row) :
  <["country_code" := CStr "PH"]> <$>
    filter not_repatriate (filter match_string_notna rows) = omap keep_row rows.
Proof.
  induction rows as [| r rows IH]; [done |].
  change (omap keep_row (r :: rows)) with
    (match keep_row r with Some y => y :: omap keep_row rows | None => omap keep_row rows end).
  unfold keep_row at 1.
  destruct (decide (match_string_notna r)) as [Hna | Hna].
  - rewrite (filter_cons_True match_string_notna) by done.
    destruct (decide (not_repatriate r)) as [Hrep | Hrep].
    + rewrite filter_cons_True by done. rewrite decide_True by done.
      rewrite fmap_cons. by rewrite IH.
    + rewrite filter_cons_False by done. rewrite decide_False by tauto. done.
  - rewrite (filter_cons_False match_string_notna) by done.
    rewrite decide_False by tauto. done.
Qed.

Lemma keep_row_string r m :
  r !! "match_string" = Some (CStr m) →
  keep_row r = if decide (m = "Repatriate") then None
               else Some (<["country_code" := CStr "PH"]> r).
Proof.
  intros Hm%get_lookup. unfold keep_row.
  destruct (decide (m = "Repatriate")) as [-> | Hne].
  - rewrite decide_False; [done |].
    unfold not_repatriate. rewrite Hm. tauto.
  - rewrite decide_True; [done |].
    unfold match_string_notna, not_repatriate. rewrite Hm. split; [done | congruence].
Qed.

Lemma rename_other old new d col :
  col ≠ old → col ≠ new → rename old new d !! col = d !! col.
Proof.
  intros Ho Hn. unfold rename. destruct (d !! old); [| done]. by lookups.
Qed.

Lemma region_copy_other d col :
  col ∉ ["match_string"; "subregion2_code"; "match_string_region"] →
  region_copy d !! col = d !! col.
Proof.
  intros Hcol. split_notin Hcol. unfold region_copy.
  rewrite !lookup_insert_ne by done. by apply rename_other.
Qed.

Lemma province_copy_other d col :
  col ∉ ["match_string"; "subregion2_code"; "match_string_province"] →
  province_copy d !! col = d !! col.
Proof.
  intros Hcol. split_notin Hcol. unfold province_copy.
  rewrite !lookup_insert_ne by done. by apply rename_other.
Qed.

Lemma keep_row_Some r y :
  keep_row r = Some y →
  y = <["country_code" := CStr "PH"]> r ∧ key_kept (get "match_string" r).
Proof.
  unfold keep_row. case_decide as Hk; [| done]. intros [= <-].
  split; [done |]. destruct Hk as [Hna Hrep]. split; [| done].
  unfold match_string_notna in Hna. by destruct (get "match_string" r).
Qed.

Lemma keep_row_cell r v :
  r !! "match_string" = Some v →
  keep_row r = if decide (key_kept v) then Some (<["country_code" := CStr "PH"]> r)
               else None.
Proof.
  intros Hv%get_lookup. unfold keep_row.
  destruct (decide (key_kept v)) as [[Hna Hrep] | Hno].
  - rewrite decide_True; [done |].
    unfold match_string_notna, not_repatriate. rewrite Hv. split; [| done].
    by destruct v.
  - rewrite decide_False; [done |].
    unfold match_string_notna, not_repatriate. rewrite Hv. intros [Hna Hrep].
    apply Hno. split; [| done]. by intros ->.
Qed.

(** The whole of lines 87-97. *)
Lemma expand_resolutions_copies (data : list row) :
  Forall (λ d, ∃ g, d !! "match_string_region" = Some (CStr g)) data →
  expand_resolutions data =
    Some (omap keep_row (concat [region_copy <$> data; province_copy <$> data])).
Proof.
  intros Hall. unfold expand_resolutions.
  destruct (strip_qualifier_regions data Hall) as [Heq [l2 Hl2]].
  rewrite Hl2 in *. simpl in Heq. simpl.
  rewrite <- list_fmap_compose. rewrite Heq.
  by rewrite filters_keep_row.
Qed.

(** Lines 87-97 as the region-level rows followed by the province-level
    rows, on a table whose regions are strings. *)
Lemma expand_resolutions_split data :
  Forall (λ d, ∃ g, d !! "match_string_region" = Some (CStr g)) data →
  expand_resolutions data =
    Some (omap (λ d, keep_row (fill_columns (output_columns data) (region_copy d))) data ++
          omap (λ d, keep_row (fill_columns (output_columns data) (province_copy d))) data).
Proof.
  intros Hall. rewrite expand_resolutions_copies by done.
  unfold concat. simpl. rewrite app_nil_r. fold (output_columns data).
  by rewrite fmap_app, omap_app, !omap_fmap.
Qed.

Lemma table_columns_elem (rows : list row) (r : row) col :
  r ∈ rows → is_Some (r !! col) → col ∈ table_columns rows.
Proof.
  intros Hr Hcol. unfold table_columns. apply elem_of_union_list.
  exists (dom r). split; [by apply list_elem_of_fmap_2 | by apply elem_of_dom].
Qed.

Lemma dom_fill_columns (columns : gset string) r :
  dom r ⊆ columns → dom (fill_columns columns r) = columns.
Proof.
  intros Hsub. unfold fill_columns. rewrite dom_union_L, dom_gset_to_gmap.
  by apply subseteq_union_1_L.
Qed.

Lemma dom_table_columns (rows : list row) r :
  r ∈ rows → dom r ⊆ table_columns rows.
Proof.
  intros Hr col Hcol. apply (table_columns_elem rows r); [done |].
  by apply elem_of_dom.
Qed.

End Copies.

(** ** The rows of the output *)

Section OutputRows.

Variable columns : gset string.

Implicit Types (d y : row) (col : string).

(** The province-level row made from [d], as it stands in the output. *)
Lemma province_output_lookup d v :
  d !! "match_string_province" = Some v →
  let y := <["country_code" := CStr "PH"]> (fill_columns columns (province_copy d)) in
  y !! "match_string" = Some v ∧
  y !! "subregion2_code" = Some (CStr EmptyString) ∧
  y !! "country_code" = Some (CStr "PH") ∧
  (∀ col w, col ∉ province_columns → d !! col = Some w → y !! col = Some w) ∧
  ("match_string_province" ∈ columns → y !! "match_string_province" = Some CNull).
Proof.
  intros Hp y. subst y.
  destruct (province_copy_lookup d v Hp) as (Hms & Hsub & Hnone & Hcol).
  repeat split.
  - rewrite lookup_insert_ne by done. by apply fill_columns_lookup.
  - rewrite lookup_insert_ne by done. by apply fill_columns_lookup.
  - by rewrite lookup_insert_eq.
  - intros col w Hnot Hw. unfold province_columns in Hnot. split_notin Hnot.
    rewrite lookup_insert_ne by done. apply fill_columns_lookup.
    rewrite Hcol; [done |]. solve_notin.
  - intros Hin. rewrite lookup_insert_ne by done.
    by apply fill_columns_missing.
Qed.

(** The region-level row made from [d], as it stands in the output. *)
Lemma region_output_lookup d g :
  d !! "match_string_region" = Some (CStr g) →
  let y := <["country_code" := CStr "PH"]> (fill_columns columns (region_copy d)) in
  y !! "match_string" = Some (CStr (Str.last_piece g)) ∧
  y !! "subregion2_code" = Some CNull ∧
  y !! "country_code" = Some (CStr "PH") ∧
  (∀ col w, col ∉ region_columns → d !! col = Some w → y !! col = Some w) ∧
  ("match_string_region" ∈ columns → y !! "match_string_region" = Some CNull).
Proof.
  intros Hg y. subst y.
  destruct (region_copy_lookup d g Hg) as (Hms & Hsub & Hnone & Hcol).
  repeat split.
  - rewrite lookup_insert_ne by done. by apply fill_columns_lookup.
  - rewrite lookup_insert_ne by done. by apply fill_columns_lookup.
  - by rewrite lookup_insert_eq.
  - intros col w Hnot Hw. unfold region_columns in Hnot. split_notin Hnot.
    rewrite lookup_insert_ne by done. apply fill_columns_lookup.
    rewrite Hcol; [done |]. solve_notin.
  - intros Hin. rewrite lookup_insert_ne by done.
    by apply fill_columns_missing.
Qed.

Lemma keep_province_copy d v :
  d !! "match_string_province" = Some v →
  keep_row (fill_columns columns (province_copy d)) =
    if decide (key_kept v)
    then Some (<["country_code" := CStr "PH"]> (fill_columns columns (province_copy d)))
    else None.
Proof.
  intros Hp. apply keep_row_cell, fill_columns_lookup.
  by apply province_copy_lookup.
Qed.

Lemma keep_region_copy d g :
  d !! "match_string_region" = Some (CStr g) →
  keep_row (fill_columns columns (region_copy d)) =
    if decide (Str.last_piece g = "Repatriate") then None
    else Some (<["country_code" := CStr "PH"]> (fill_columns columns (region_copy d))).
Proof.
  intros Hg. apply keep_row_string, fill_columns_lookup.
  by apply region_copy_lookup.
Qed.

End OutputRows.

(** ** Lines 87-97 on a table whose regions are strings *)

Section Expansion.

Implicit Types (d y : row) (col : string) (data : list row).

(** The rows that lines 87-97 return: the region-level copies of the rows
    whose region passes line 96, then the province-level copies of the rows
    whose province passes lines 95 and 96. *)
Lemma expand_resolutions_contributions data :
  Forall (λ d, (∃ g, d !! "match_string_region" = Some (CStr g)) ∧
               is_Some (d !! "match_string_province")) data →
  ∃ regions provinces,
    expand_resolutions data = Some (regions ++ provinces) ∧
    Forall2 (λ d y, d ∈ data ∧
               y = <["country_code" := CStr "PH"]>
                     (fill_columns (output_columns data) (region_copy d)))
      (filter region_kept data) regions ∧
    Forall2 (λ d y, d ∈ data ∧
               y = <["country_code" := CStr "PH"]>
                     (fill_columns (output_columns data) (province_copy d)))
      (filter province_key_kept data) provinces.
Proof.
  intros Hall.
  assert (Forall (λ d, ∃ g, d !! "match_string_region" = Some (CStr g)) data) as Hreg.
  { eapply Forall_impl; [exact Hall |]. by intros d [Hg _]. }
  rewrite Forall_forall in Hall.
  eexists _, _. split; [by apply expand_resolutions_split |].
  split; apply Forall2_filter_omap; intros d Hd.
  - destruct (Hall d Hd) as [[g Hg] _].
    rewrite (keep_region_copy _ _ g Hg).
    destruct (decide (region_kept d)) as [Hne | Heq];
      unfold region_kept in *; rewrite (get_lookup _ _ _ Hg) in *; cbn [text_of] in *.
    + rewrite decide_False by done. eauto.
    + rewrite decide_True; [done |].
      by destruct (decide (Str.last_piece g = "Repatriate")).
  - destruct (Hall d Hd) as [_ [v Hv]].
    rewrite (keep_province_copy _ _ v Hv).
    destruct (decide (province_key_kept d)) as [Hk | Hk];
      unfold province_key_kept in *; rewrite (get_lookup _ _ _ Hv) in *.
    + rewrite decide_True by done. eauto.
    + by rewrite decide_False.
Qed.

(** Both key columns are columns of the concatenation of a table that has
    a row. *)
Lemma output_columns_keys data d :
  d ∈ data →
  is_Some (d !! "match_string_region") → is_Some (d !! "match_string_province") →
  "match_string_region" ∈ output_columns data ∧
  "match_string_province" ∈ output_columns data.
Proof.
  intros Hd Hg Hp. unfold output_columns. split.
  - apply (table_columns_elem _ (province_copy d)).
    + apply elem_of_app. right. by apply list_elem_of_fmap_2.
    + by rewrite province_copy_other by solve_notin.
  - apply (table_columns_elem _ (region_copy d)).
    + apply elem_of_app. left. by apply list_elem_of_fmap_2.
    + by rewrite region_copy_other by solve_notin.
Qed.

(** C2, as the code has it. Dual-resolution duplication: on a table whose
    regions are strings, lines 87-97 return the region-level rows followed by
    the province-level rows, nothing merged across the two.  The
    region-level rows are, in order, one contribution for each row whose
    region after the last ": " is not "Repatriate", with that text as match
    string and a null [subregion2_code]; the province-level rows are one
    contribution for each row whose province cell is neither null nor
    "Repatriate", with that cell as it is as match string and an empty
    [subregion2_code].  A row without a province there has its region-level
    contribution. *)
Theorem dual_resolution data :
  Forall (λ d, (∃ g, d !! "match_string_region" = Some (CStr g)) ∧
               is_Some (d !! "match_string_province")) data →
  ∃ regions provinces,
    expand_resolutions data = Some (regions ++ provinces) ∧
    Forall2 region_contribution (filter region_kept data) regions ∧
    Forall2 province_contribution (filter province_key_kept data) provinces.
Proof.
  intros Hall.
  destruct (expand_resolutions_contributions data Hall)
    as (regions & provinces & Hrun & Hregions & Hprovinces).
  rewrite Forall_forall in Hall.
  exists regions, provinces. split; [done |]. split.
  - eapply Forall2_impl; [exact Hregions |]. intros d y [Hd ->].
    destruct (Hall d Hd) as [[g Hg] _].
    destruct (region_output_lookup (output_columns data) d g Hg)
      as (Hms & Hsub & _ & Hcol & _).
    by exists g.
  - eapply Forall2_impl; [exact Hprovinces |]. intros d y [Hd ->].
    destruct (Hall d Hd) as [_ [v Hv]].
    destruct (province_output_lookup (output_columns data) d v Hv)
      as (Hms & Hsub & _ & Hcol & _).
    split; [by rewrite Hv |]. by split.
Qed.

(** C3, as the code has it. Key filtering: on a table whose regions are
    strings, the match string of every row that lines 87-97 return is
    neither null nor the placeholder "Repatriate"; the match strings of the
    province-level rows are exactly the province cells of the table that are
    neither, and those of the region-level rows exactly the regions, cut
    after their last ": ", that are not the placeholder.  So a row is
    dropped at a level exactly when its key there is null or the
    placeholder; an empty string is kept. *)
Theorem match_string_filtered data :
  Forall (λ d, (∃ g, d !! "match_string_region" = Some (CStr g)) ∧
               is_Some (d !! "match_string_province")) data →
  ∃ out,
    expand_resolutions data = Some out ∧
    Forall (λ y, key_kept (get "match_string" y)) out ∧
    (∀ v, (∃ y, y ∈ out ∧ province_level y ∧ y !! "match_string" = Some v) ↔
          key_kept v ∧ ∃ d, d ∈ data ∧ d !! "match_string_province" = Some v) ∧
    (∀ v, (∃ y, y ∈ out ∧ region_level y ∧ y !! "match_string" = Some v) ↔
          key_kept v ∧
          ∃ d g, d ∈ data ∧ d !! "match_string_region" = Some (CStr g) ∧
                 v = CStr (Str.last_piece g)).
Proof.
  intros Hall.
  destruct (expand_resolutions_contributions data Hall)
    as (regions & provinces & Hrun & Hregions & Hprovinces).
  rewrite Forall_forall in Hall.
  assert (∀ y, y ∈ regions →
            ∃ d g, d ∈ data ∧ d !! "match_string_region" = Some (CStr g) ∧
                   Str.last_piece g ≠ "Repatriate" ∧
                   y !! "match_string" = Some (CStr (Str.last_piece g)) ∧
                   y !! "subregion2_code" = Some CNull) as Hregion.
  { intros y Hy.
    destruct (Forall2_elem_of_r _ _ _ _ Hregions Hy) as (d & Hin & Hd & ->).
    apply list_elem_of_filter in Hin as [Hkept _].
    destruct (Hall d Hd) as [[g Hg] _].
    unfold region_kept in Hkept. rewrite (get_lookup _ _ _ Hg) in Hkept.
    destruct (region_output_lookup (output_columns data) d g Hg) as (Hms & Hsub & _).
    by exists d, g. }
  assert (∀ y, y ∈ provinces →
            ∃ d v, d ∈ data ∧ d !! "match_string_province" = Some v ∧ key_kept v ∧
                   y !! "match_string" = Some v ∧
                   y !! "subregion2_code" = Some (CStr EmptyString)) as Hprovince.
  { intros y Hy.
    destruct (Forall2_elem_of_r _ _ _ _ Hprovinces Hy) as (d & Hin & Hd & ->).
    apply list_elem_of_filter in Hin as [Hkept _].
    destruct (Hall d Hd) as [_ [v Hv]].
    unfold province_key_kept in Hkept. rewrite (get_lookup _ _ _ Hv) in Hkept.
    destruct (province_output_lookup (output_columns data) d v Hv) as (Hms & Hsub & _).
    by exists d, v. }
  exists (regions ++ provinces). split; [done |]. split; [| split].
  - apply Forall_app. split; apply Forall_forall; intros y Hy.
    + destruct (Hregion y Hy) as (d & g & _ & _ & Hne & Hms & _).
      rewrite (get_lookup _ _ _ Hms). split; congruence.
    + destruct (Hprovince y Hy) as (d & v & _ & _ & Hk & Hms & _).
      by rewrite (get_lookup _ _ _ Hms).
  - intros v. split.
    + intros (y & [Hy | Hy]%elem_of_app & Hlevel & Hms).
      * destruct (Hregion y Hy) as (d & g & _ & _ & _ & _ & Hsub).
        unfold province_level in Hlevel. congruence.
      * destruct (Hprovince y Hy) as (d & v' & Hd & Hv & Hk & Hms' & _).
        assert (v' = v) as -> by congruence. eauto.
    + intros (Hk & d & Hd & Hv).
      assert (d ∈ filter province_key_kept data) as Hin.
      { apply list_elem_of_filter. split; [| done].
        unfold province_key_kept. by rewrite (get_lookup _ _ _ Hv). }
      destruct (Forall2_elem_of_l _ _ _ _ Hprovinces Hin) as (y & Hy & _ & ->).
      destruct (province_output_lookup (output_columns data) d v Hv) as (Hms & Hsub & _).
      eexists. split; [apply elem_of_app; right; exact Hy |]. by split.
  - intros v. split.
    + intros (y & [Hy | Hy]%elem_of_app & Hlevel & Hms).
      * destruct (Hregion y Hy) as (d & g & Hd & Hg & Hne & Hms' & _).
        assert (v = CStr (Str.last_piece g)) as -> by congruence.
        split; [split; congruence | eauto].
      * destruct (Hprovince y Hy) as (d & v' & _ & _ & _ & _ & Hsub).
        unfold region_level in Hlevel. congruence.
    + intros ([_ Hne] & d & g & Hd & Hg & ->).
      assert (d ∈ filter region_kept data) as Hin.
      { apply list_elem_of_filter. split; [| done].
        unfold region_kept. rewrite (get_lookup _ _ _ Hg). cbn [text_of]. congruence. }
      destruct (Forall2_elem_of_l _ _ _ _ Hregions Hin) as (y & Hy & _ & ->).
      destruct (region_output_lookup (output_columns data) d g Hg) as (Hms & Hsub & _).
      eexists. split; [apply elem_of_app; left; exact Hy |]. by split.
Qed.

(** C10. Each copy keeps the key column of the other resolution: on a table
    whose regions are strings, the region-level rows that lines 87-97 return
    are, in order, one for each row whose region passes line 96, and each
    holds the province cell of its row in [match_string_province] and null
    in [match_string_region]; the province-level rows are one for each row
    whose province passes lines 95-96, and each holds the region of its row
    in [match_string_region] and null in [match_string_province]. *)
Theorem copies_keep_other_key data :
  Forall (λ d, (∃ g, d !! "match_string_region" = Some (CStr g)) ∧
               is_Some (d !! "match_string_province")) data →
  ∃ regions provinces,
    expand_resolutions data = Some (regions ++ provinces) ∧
    Forall2 (λ d y, region_level y ∧
                    y !! "match_string_region" = Some CNull ∧
                    y !! "match_string_province" = d !! "match_string_province")
      (filter region_kept data) regions ∧
    Forall2 (λ d y, province_level y ∧
                    y !! "match_string_province" = Some CNull ∧
                    y !! "match_string_region" = d !! "match_string_region")
      (filter province_key_kept data) provinces.
Proof.
  intros Hall.
  destruct (expand_resolutions_contributions data Hall)
    as (regions & provinces & Hrun & Hregions & Hprovinces).
  rewrite Forall_forall in Hall.
  exists regions, provinces. split; [done |].
  split; (eapply Forall2_impl; [eassumption |]); intros d y [Hd ->];
    destruct (Hall d Hd) as [[g Hg] [v Hv]];
    destruct (output_columns_keys data d Hd) as [Hgcol Hpcol]; eauto.
  - destruct (region_output_lookup (output_columns data) d g Hg)
      as (_ & Hsub & _ & Hcol & Hnull).
    split; [done |]. split; [by apply Hnull |].
    rewrite Hv. apply Hcol; [solve_notin | done].
  - destruct (province_output_lookup (output_columns data) d v Hv)
      as (_ & Hsub & _ & Hcol & Hnull).
    split; [done |]. split; [by apply Hnull |].
    rewrite Hg. apply Hcol; [solve_notin | done].
Qed.

End Expansion.

(** ** Zero fill (line 84) *)


(** ** Lines 81-97 on an aggregated table *)

Section Standardize.

Variable safe_datetime_parse : cell → option datetime.

Implicit Types (d y : row) (col : string) (data : list row).

Lemma get_missing col d : d !! col = None → get col d = CNull.
Proof. intros H. unfold get. by rewrite lookup_total_alt, H. Qed.

Lemma get_fill_columns_missing (columns : gset string) d col :
  d !! col = None → get col (fill_columns columns d) = CNull.
Proof.
  intros H. destruct (decide (col ∈ columns)) as [Hin | Hout].
  - apply get_lookup. by apply fill_columns_missing.
  - apply get_missing. unfold fill_columns.
    rewrite lookup_union_r by done. by apply lookup_gset_to_gmap_None.
Qed.

Lemma count_of_fill (v : cell) : count_of (if isna v then CNum 0 else v) = count_of v.
Proof. by destruct v. Qed.

(** The columns that lines 81-97 write. *)
Lemma written_columns col :
  col ∉ ["date"; "match_string"; "subregion2_code"; "match_string_region";
         "match_string_province"; "country_code"] →
  (col ≠ "date") ∧ (col ≠ "country_code") ∧
  (col ∉ region_columns) ∧ (col ∉ province_columns) ∧
  (col ∉ ["match_string"; "subregion2_code"; "match_string_region"]) ∧
  (col ∉ ["match_string"; "subregion2_code"; "match_string_province"]).
Proof.
  intros H. split_notin H. unfold region_columns, province_columns.
  repeat split; try done; solve_notin.
Qed.

(** A cell that lines 81-97 do not write counts the same in both copies of
    its row as in the row. *)
Lemma copies_count (columns : gset string) d (s : string) col :
  col ∉ ["date"; "match_string"; "subregion2_code"; "match_string_region";
         "match_string_province"; "country_code"] →
  let d' := fillna (CNum 0) (<["date" := CStr s]> d) in
  count_of (get col (<["country_code" := CStr "PH"]>
                       (fill_columns columns (region_copy d')))) = count_of (get col d) ∧
  count_of (get col (<["country_code" := CStr "PH"]>
                       (fill_columns columns (province_copy d')))) = count_of (get col d).
Proof.
  intros (Hdate & Hcc & _ & _ & Hr & Hp)%written_columns d'.
  rewrite !get_insert_ne by done.
  assert (d' !! col = (λ c, if isna c then CNum 0 else c) <$> d !! col) as Hd'.
  { unfold d'. by rewrite lookup_fillna, lookup_insert_ne. }
  destruct (d !! col) as [v |] eqn:Hv; simpl in Hd'.
  - rewrite (get_lookup _ d v Hv).
    rewrite (get_lookup col (fill_columns columns (region_copy d')) _
               (fill_columns_lookup _ _ _ _ (eq_trans (region_copy_other d' col Hr) Hd'))).
    rewrite (get_lookup col (fill_columns columns (province_copy d')) _
               (fill_columns_lookup _ _ _ _ (eq_trans (province_copy_other d' col Hp) Hd'))).
    by rewrite count_of_fill.
  - rewrite (get_missing _ d Hv).
    rewrite !get_fill_columns_missing; [done | |].
    + by rewrite province_copy_other.
    + by rewrite region_copy_other.
Qed.

(** The rows that lines 81-97 return: for each row whose date parses, a
    region-level row unless line 96 drops it, then a province-level row
    unless line 96 drops it; the nulls being zeros by then, line 95 drops
    nothing. *)
Lemma standardize_rows data :
  Forall (λ d, (∃ g, d !! "match_string_region" = Some (CStr g)) ∧
               is_Some (d !! "match_string_province")) data →
  ∃ regions provinces,
    standardize safe_datetime_parse data = Some (regions ++ provinces) ∧
    Forall2 (λ d y, d ∈ data ∧ ∃ t columns,
               safe_datetime_parse (get "date" d) = Some t ∧
               y = <["country_code" := CStr "PH"]>
                     (fill_columns columns
                        (region_copy (fillna (CNum 0)
                                        (<["date" := CStr (Iso.isoformat t)]> d)))))
      (filter (row_at_region safe_datetime_parse) data) regions ∧
    Forall2 (λ d y, d ∈ data ∧ ∃ t columns,
               safe_datetime_parse (get "date" d) = Some t ∧
               y = <["country_code" := CStr "PH"]>
                     (fill_columns columns
                        (province_copy (fillna (CNum 0)
                                          (<["date" := CStr (Iso.isoformat t)]> d)))))
      (filter (row_at_province safe_datetime_parse) data) provinces.
Proof.
  intros Hall. unfold standardize. rewrite normalize_dates_omap. simpl.
  set (dated := omap (normalized safe_datetime_parse) data).
  rewrite Forall_forall in Hall.
  assert (∀ d t, d ∈ data →
            let d' := fillna (CNum 0) (<["date" := CStr (Iso.isoformat t)]> d) in
            (∃ g, d !! "match_string_region" = Some (CStr g) ∧
                  d' !! "match_string_region" = Some (CStr g)) ∧
            (∃ v, d !! "match_string_province" = Some v ∧
                  d' !! "match_string_province" = Some (if isna v then CNum 0 else v)))
    as Hkeys.
  { intros d t Hd d'. destruct (Hall d Hd) as [[g Hg] [v Hv]]. unfold d'.
    rewrite !lookup_fillna, !lookup_insert_ne by done. rewrite Hg, Hv. simpl.
    split; eexists; by split. }
  rewrite expand_resolutions_split.
  2:{ apply Forall_fmap, Forall_forall.
      intros n (d & Hd & Hn)%list_elem_of_omap. unfold normalized in Hn.
      destruct (safe_datetime_parse (get "date" d)) as [t |]; [| done].
      injection Hn as <-. destruct (Hkeys d t Hd) as [(g & _ & Hg) _]. eauto. }
  set (columns := output_columns (fillna (CNum 0) <$> dated)).
  unfold dated. rewrite !omap_fmap, !omap_omap.
  eexists _, _. split; [done |].
  split; apply Forall2_filter_omap; intros d Hd; unfold normalized;
    destruct (safe_datetime_parse (get "date" d)) as [t |] eqn:Hp; cbn;
    try (rewrite decide_False; [done | intros [[x Hx] _]; congruence]);
    destruct (Hkeys d t Hd) as [(g & Hg & Hg') (v & Hv & Hv')].
  - rewrite (keep_region_copy _ _ g Hg').
    destruct (decide (row_at_region safe_datetime_parse d)) as [[_ Hk] | Hk];
      unfold row_at_region, region_kept in *; rewrite (get_lookup _ _ _ Hg) in *;
      cbn [text_of] in *.
    + rewrite decide_False by done. eauto 8.
    + rewrite decide_True; [done |].
      destruct (decide (Str.last_piece g = "Repatriate")); [done |].
      destruct Hk. rewrite Hp. eauto.
  - rewrite (keep_province_copy _ _ _ Hv').
    destruct (decide (row_at_province safe_datetime_parse d)) as [[_ Hk] | Hk];
      unfold row_at_province, province_kept in *; rewrite (get_lookup _ _ _ Hv) in *.
    + rewrite decide_True; [eauto 8 |]. destruct v; split; simpl; congruence.
    + rewrite decide_False; [done |]. intros [_ Hrep]. apply Hk.
      rewrite Hp. split; [eauto |]. by destruct v.
Qed.

Lemma copy_levels (columns : gset string) d :
  <["country_code" := CStr "PH"]> (fill_columns columns (region_copy d))
    !! "subregion2_code" = Some CNull ∧
  <["country_code" := CStr "PH"]> (fill_columns columns (province_copy d))
    !! "subregion2_code" = Some (CStr EmptyString).
Proof.
  rewrite !lookup_insert_ne by done.
  split; apply fill_columns_lookup; unfold region_copy, province_copy; by lookups.
Qed.

Lemma sum_with_Forall2 {A B} (R : A → B → Prop) (w1 : A → Z) (w2 : B → Z) l k :
  Forall2 R l k → (∀ a b, R a b → w1 a = w2 b) → sum_with w1 l = sum_with w2 k.
Proof.
  intros HR Hw. induction HR as [| a b l k Hab _ IH]; [done |].
  rewrite !sum_with_cons. by rewrite (Hw a b Hab), IH.
Qed.

(** Lines 81-97 conserve the sum of every column they do not write, at each
    level. *)
Lemma standardize_sums data :
  Forall (λ d, (∃ g, d !! "match_string_region" = Some (CStr g)) ∧
               is_Some (d !! "match_string_province")) data →
  ∃ out,
    standardize safe_datetime_parse data = Some out ∧
    ∀ col,
      col ∉ ["date"; "match_string"; "subregion2_code"; "match_string_region";
             "match_string_province"; "country_code"] →
      column_sum col (filter province_level out) =
        column_sum col (filter (row_at_province safe_datetime_parse) data) ∧
      column_sum col (filter region_level out) =
        column_sum col (filter (row_at_region safe_datetime_parse) data).
Proof.
  intros (regions & provinces & Hrun & Hregions & Hprovinces)%standardize_rows.
  exists (regions ++ provinces). split; [done |]. intros col Hcol.
  assert (Forall region_level regions ∧ Forall (λ y, ¬ province_level y) regions)
    as [Hr1 Hr2].
  { split; apply Forall_forall; intros y Hy;
      destruct (Forall2_elem_of_r _ _ _ _ Hregions Hy) as (d & _ & _ & t & c & _ & ->);
      unfold region_level, province_level;
      rewrite (proj1 (copy_levels c _)); done. }
  assert (Forall province_level provinces ∧ Forall (λ y, ¬ region_level y) provinces)
    as [Hp1 Hp2].
  { split; apply Forall_forall; intros y Hy;
      destruct (Forall2_elem_of_r _ _ _ _ Hprovinces Hy) as (d & _ & _ & t & c & _ & ->);
      unfold region_level, province_level;
      rewrite (proj2 (copy_levels c _)); done. }
  rewrite !filter_app.
  rewrite (filter_none province_level regions), (filter_none region_level provinces)
    by done.
  rewrite app_nil_l, app_nil_r.
  rewrite (filter_all province_level provinces), (filter_all region_level regions)
    by done.
  unfold column_sum. split; symmetry.
  - eapply sum_with_Forall2; [exact Hprovinces |].
    intros d y (_ & t & c & _ & ->). cbn beta. symmetry.
    by apply (copies_count c d (Iso.isoformat t) col Hcol).
  - eapply sum_with_Forall2; [exact Hregions |].
    intros d y (_ & t & c & _ & ->). cbn beta. symmetry.
    by apply (copies_count c d (Iso.isoformat t) col Hcol).
Qed.

End Standardize.

(** ** The case table handed to the aggregation (lines 47-73) *)

Section Preparation.

Variable age_group : cell → cell.
Variable str_lower : string → string.

Implicit Types c : CaseRecord.

(** The imputation and inference steps leave the grouping keys alone. *)
Lemma imputed_fields c :
  match_string_province (imputed c) = match_string_province c ∧
  match_string_region (imputed c) = match_string_region c ∧
  age (imputed c) = age c ∧
  sex (imputed c) = sex c.
Proof.
  unfold imputed, infer_hospitalized, DateImputer, impute_deceased.
  rewrite nan_deceased_mask_impute_recovered. unfold impute_recovered.
  destruct (nan_deceased_mask c), (nan_recovered_mask c); simpl; auto.
Qed.

Lemma prepared_fields c c' :
  prepared age_group str_lower c = Some c' →
  (∀ e, event_date e c' = event_date e (imputed c)) ∧
  match_string_province c' = match_string_province c ∧
  match_string_region c' = match_string_region c ∧
  age c' = age_group (age c) ∧
  is_Some (sex c') ∧ is_Some (sex c).
Proof.
  pose proof (imputed_fields c) as (Hp & Hg & Ha & Hx).
  unfold prepared, lower_sex.
  change (sex (stratify_age age_group (imputed c))) with (sex (imputed c)).
  rewrite Hx. destruct (sex c) as [x |]; [| done]. intros [= <-].
  split; [by intros [] |]. split; [exact Hp |]. split; [exact Hg |].
  split; [| split; eauto].
  change (age_group (age (imputed c)) = age_group (age c)). by rewrite Ha.
Qed.

Lemma prepared_is_Some c : is_Some (sex c) → is_Some (prepared age_group str_lower c).
Proof.
  pose proof (imputed_fields c) as (_ & _ & _ & Hx).
  intros [x Hs]. unfold prepared, lower_sex.
  change (sex (stratify_age age_group (imputed c))) with (sex (imputed c)).
  rewrite Hx, Hs. eauto.
Qed.

Lemma prepared_all (raw : list CaseRecord) :
  Forall (λ c, is_Some (sex c)) raw →
  ∃ cs, mapM (prepared age_group str_lower) raw = Some cs.
Proof.
  intros Hall. apply mapM_is_Some. eapply Forall_impl; [exact Hall |].
  intros c Hc. by apply prepared_is_Some.
Qed.

(** The imputations do not write the admission column. *)
Lemma imputed_flags (raw : list CaseRecord) :
  _hospitalized <$> (impute_deceased <$> (impute_recovered <$> raw)) =
  _hospitalized <$> raw.
Proof.
  rewrite <- !list_fmap_compose. apply list_fmap_ext. intros _ c _.
  unfold compose, impute_deceased, impute_recovered.
  by destruct (nan_recovered_mask c), (nan_deceased_mask _).
Qed.

(** Lines 47-73 row by row: they raise at line 61 when the admission column
    is not text, and at line 70 on a missing sex label. *)
Lemma prepare_cases_rows (raw : list CaseRecord) :
  prepare_cases age_group str_lower raw =
    if is_text_column (_hospitalized <$> raw)
    then fmap public_columns <$> mapM (prepared age_group str_lower) raw
    else None.
Proof.
  unfold prepare_cases. rewrite HospitalizationInferrer_rows, imputed_flags.
  destruct (is_text_column _); [| done]. simpl.
  rewrite !mapM_fmap. by destruct (mapM _ raw).
Qed.

End Preparation.

(** ** The aggregated table *)

Section Series.

Implicit Types (c : CaseRecord) (e : event) (k : list cell) (r d : row).

(** The group of a prepared case for an event: its five key cells, when the
    date of the event is present. *)
Lemma group_key_public e c :
  CaseLine.group_key index_columns e (public_columns c) =
    if isna (of_text (event_date e c)) then None else Some (key_of e c).
Proof. destruct e; vm_compute; reflexivity. Qed.

(** Lookups in a pivoted row. *)
Lemma pivot_row_count cases k e :
  CaseLine.pivot_row index_columns cases k !! value_column e =
    Some (CaseLine.count_cell
            (CaseLine.count_rows k (CaseLine.event_series index_columns e cases))).
Proof.
  unfold CaseLine.pivot_row, events. cbn [foldr].
  destruct e; cbn [value_column];
    repeat first [rewrite lookup_insert_eq | rewrite lookup_insert_ne by done]; done.
Qed.

Lemma pivot_row_key cases a b g x y col :
  col ∉ (value_column <$> events) →
  CaseLine.pivot_row index_columns cases [a; b; g; x; y] !! col =
    ({[ "date" := a; "match_string_province" := b; "match_string_region" := g;
        "age" := x; "sex" := y ]} : row) !! col.
Proof.
  intros Hcol. unfold CaseLine.pivot_row, events in *. cbn [foldr].
  split_notin Hcol. by lookups.
Qed.

(** Every group of the aggregation of prepared cases is the group of one of
    them. *)
Lemma group_keys_elem (cs : list CaseRecord) k :
  k ∈ CaseLine.group_keys index_columns (public_columns <$> cs) →
  ∃ e c, c ∈ cs ∧ k = key_of e c.
Proof.
  unfold CaseLine.group_keys.
  rewrite elem_of_remove_dups, list_elem_of_bind.
  intros (e & Hk & _). unfold CaseLine.event_series in Hk.
  apply list_elem_of_omap in Hk as (r & Hr & Hk).
  apply list_elem_of_fmap in Hr as (c & -> & Hc).
  rewrite group_key_public in Hk.
  destruct (isna _); [done |]. injection Hk as <-. eauto.
Qed.

Lemma group_keys_NoDup (rows : list row) :
  NoDup (CaseLine.group_keys index_columns rows).
Proof. apply NoDup_remove_dups. Qed.

Lemma event_series_group_keys (rows : list row) e k :
  k ∈ CaseLine.event_series index_columns e rows →
  k ∈ CaseLine.group_keys index_columns rows.
Proof.
  intros Hk. unfold CaseLine.group_keys.
  rewrite elem_of_remove_dups, list_elem_of_bind.
  exists e. split; [done |]. unfold events. destruct e; set_solver.
Qed.

Lemma count_of_count_cell (n : nat) : count_of (CaseLine.count_cell n) = Z.of_nat n.
Proof. by destruct n. Qed.

(** The key cells of the row of a group. *)
Lemma pivot_row_keys (cs : list CaseRecord) e c :
  let d := CaseLine.pivot_row index_columns (public_columns <$> cs) (key_of e c) in
  d !! "date" = Some (of_text (event_date e c)) ∧
  d !! "match_string_province" = Some (of_text (match_string_province c)) ∧
  d !! "match_string_region" = Some (of_text (match_string_region c)).
Proof.
  unfold key_of. repeat split; rewrite pivot_row_key by solve_notin; by lookups.
Qed.

Section Sums.

Variable safe_datetime_parse : cell → option datetime.

(** The sum of an event column over the aggregated rows of a level: the
    number of entries of the event's series at that level. *)
Lemma aggregated_sums (cs : list CaseRecord) e :
  let cases := public_columns <$> cs in
  let data := CaseLine.convert_cases_to_time_series cases index_columns in
  column_sum (value_column e) (filter (row_at_province safe_datetime_parse) data) =
    Z.of_nat (length (filter (key_at_province safe_datetime_parse)
                        (CaseLine.event_series index_columns e cases))) ∧
  column_sum (value_column e) (filter (row_at_region safe_datetime_parse) data) =
    Z.of_nat (length (filter (key_at_region safe_datetime_parse)
                        (CaseLine.event_series index_columns e cases))).
Proof.
  intros cases data. unfold data, CaseLine.convert_cases_to_time_series, column_sum.
  rewrite !sum_with_filter, !sum_with_fmap.
  assert (∀ k, k ∈ CaseLine.group_keys index_columns cases →
            get "date" (CaseLine.pivot_row index_columns cases k) = k !!! 0%nat ∧
            get "match_string_province" (CaseLine.pivot_row index_columns cases k) =
              k !!! 1%nat ∧
            get "match_string_region" (CaseLine.pivot_row index_columns cases k) =
              k !!! 2%nat ∧
            count_of (get (value_column e) (CaseLine.pivot_row index_columns cases k)) =
              Z.of_nat (CaseLine.count_rows k
                          (CaseLine.event_series index_columns e cases))) as Hrow.
  { intros k (e' & c & _ & ->)%group_keys_elem. unfold cases.
    destruct (pivot_row_keys cs e' c) as (Hd & Hp & Hg).
    rewrite (get_lookup _ _ _ Hd), (get_lookup _ _ _ Hp), (get_lookup _ _ _ Hg).
    rewrite (get_lookup _ _ _ (pivot_row_count _ _ e)), count_of_count_cell.
    done. }
  split.
  - rewrite (sum_with_ext _
      (λ k, if decide (key_at_province safe_datetime_parse k)
            then Z.of_nat (CaseLine.count_rows k
                             (CaseLine.event_series index_columns e cases))
            else 0)).
    + apply sum_count_rows; [apply group_keys_NoDup |].
      intros k Hk. by eapply event_series_group_keys.
    + intros k (Hd & Hp & _ & Hn)%Hrow. unfold compose.
      rewrite Hn. apply decide_ext.
      unfold row_at_province, province_kept, key_at_province. by rewrite Hd, Hp.
  - rewrite (sum_with_ext _
      (λ k, if decide (key_at_region safe_datetime_parse k)
            then Z.of_nat (CaseLine.count_rows k
                             (CaseLine.event_series index_columns e cases))
            else 0)).
    + apply sum_count_rows; [apply group_keys_NoDup |].
      intros k Hk. by eapply event_series_group_keys.
    + intros k (Hd & _ & Hg & Hn)%Hrow. unfold compose.
      rewrite Hn. apply decide_ext.
      unfold row_at_region, region_kept, key_at_region. by rewrite Hd, Hg.
Qed.

(** A case is counted at a level exactly when its prepared row has a group
    that passes the date and placeholder conditions of the level. *)
Lemma counted_keys age_group str_lower e c c' :
  prepared age_group str_lower c = Some c' →
  (counted_at_province safe_datetime_parse e c ↔
   ∃ k, CaseLine.group_key index_columns e (public_columns c') = Some k ∧
        key_at_province safe_datetime_parse k) ∧
  (counted_at_region safe_datetime_parse e c ↔
   ∃ k, CaseLine.group_key index_columns e (public_columns c') = Some k ∧
        key_at_region safe_datetime_parse k).
Proof.
  intros (Hd & Hp & Hg & _)%prepared_fields.
  rewrite group_key_public.
  unfold counted_at_province, counted_at_region, dated, key_at_province, key_at_region,
    key_of.
  rewrite Hd, Hp, Hg.
  change ([?a; ?b; ?g; ?x; ?y] !!! 0%nat) with a.
  change ([?a; ?b; ?g; ?x; ?y] !!! 1%nat) with b.
  change ([?a; ?b; ?g; ?x; ?y] !!! 2%nat) with g.
  destruct (event_date e (imputed c)) as [s |]; simpl.
  - split; split.
    + intros [(s' & [= <-] & Hs) Hrep]. eexists. split; [done |]. split; [done |].
      destruct (match_string_province c); simpl; congruence.
    + intros (k & [= <-] & Hs & Hrep). split; [eauto |].
      destruct (match_string_province c); simpl in *; congruence.
    + intros [(s' & [= <-] & Hs) Hrep]. eexists. split; [done |]. split; [done |].
      destruct (match_string_region c); simpl in *; [congruence | by vm_compute].
    + intros (k & [= <-] & Hs & Hrep). split; [eauto |].
      destruct (match_string_region c); simpl in *; congruence.
  - split; split; first [by intros [(s' & ? & _) _] | by intros (k & ? & _)].
Qed.

End Sums.

End Series.

(** ** The run *)

Section Run.

Variable age_group : cell → cell.
Variable str_lower : string → string.
Variable safe_datetime_parse : cell → option datetime.

Implicit Types (c : CaseRecord) (e : event) (k : list cell) (d y : row).

(** The run is the preparation of the case table, the aggregation and
    lines 81-97. *)
Lemma parse_dataframes_standardize (raw : list CaseRecord) :
  parse_dataframes age_group str_lower safe_datetime_parse raw =
    cases ← prepare_cases age_group str_lower raw;
    standardize safe_datetime_parse
      (CaseLine.convert_cases_to_time_series cases index_columns).
Proof.
  unfold parse_dataframes, dated_series, standardize.
  by destruct (prepare_cases age_group str_lower raw).
Qed.

(** A run raises at line 70 on a missing sex label, if not before. *)
Lemma parse_dataframes_raises (raw : list CaseRecord) :
  Exists (λ c, sex c = None) raw →
  parse_dataframes age_group str_lower safe_datetime_parse raw = None.
Proof.
  intros Hex. rewrite parse_dataframes_standardize, prepare_cases_rows.
  destruct (is_text_column _); [| done].
  assert (mapM (prepared age_group str_lower) raw = None) as ->; [| done].
  apply mapM_None. eapply Exists_impl; [exact Hex |].
  intros c Hc. pose proof (imputed_fields c) as (_ & _ & _ & Hx).
  unfold prepared, lower_sex.
  change (sex (stratify_age age_group (imputed c))) with (sex (imputed c)).
  by rewrite Hx, Hc.
Qed.

(** A run raises at line 61 on a table with rows none of which holds an
    admission flag. *)
Lemma parse_dataframes_raises_flags (raw : list CaseRecord) :
  raw ≠ [] → Forall (λ c, _hospitalized c = None) raw →
  parse_dataframes age_group str_lower safe_datetime_parse raw = None.
Proof.
  intros Hne Hall. rewrite parse_dataframes_standardize, prepare_cases_rows.
  by rewrite (proj2 (is_text_column_float raw)).
Qed.

(** The aggregated table of prepared cases whose regions are present can be
    expanded. *)
Lemma aggregated_regions (cs : list CaseRecord) :
  Forall (λ c, is_Some (match_string_region c)) cs →
  Forall (λ d, (∃ g, d !! "match_string_region" = Some (CStr g)) ∧
               is_Some (d !! "match_string_province"))
    (CaseLine.convert_cases_to_time_series (public_columns <$> cs) index_columns).
Proof.
  intros Hall. rewrite Forall_forall in Hall.
  unfold CaseLine.convert_cases_to_time_series.
  apply Forall_fmap, Forall_forall. intros k (e & c & Hc & ->)%group_keys_elem.
  destruct (pivot_row_keys cs e c) as (_ & Hp & Hg). simpl.
  rewrite Hp, Hg. destruct (Hall c Hc) as [g ->]. simpl. eauto.
Qed.

(** C1, as the code has it. Count conservation: on a table in which no case
    lacks its sex label or its region and some case has an admission flag,
    the run returns a table, and for every event type the sum of its count
    column over the province-level rows is the number of cases whose date
    for the event, after imputation, is present and parses, and whose
    province is not the placeholder "Repatriate"; the same holds over the
    region-level rows, with the region after the last ": " in place of the
    province. *)
Theorem count_conservation (raw : list CaseRecord) :
  Forall (λ c, is_Some (sex c)) raw →
  Exists (λ c, is_Some (_hospitalized c)) raw →
  Forall (λ c, is_Some (match_string_region c)) raw →
  ∃ out,
    parse_dataframes age_group str_lower safe_datetime_parse raw = Some out ∧
    ∀ e,
      column_sum (value_column e) (filter province_level out) =
        Z.of_nat (length (filter (counted_at_province safe_datetime_parse e) raw)) ∧
      column_sum (value_column e) (filter region_level out) =
        Z.of_nat (length (filter (counted_at_region safe_datetime_parse e) raw)).
Proof.
  intros [cs Hcs]%(prepared_all age_group str_lower) Hflag Hregion.
  assert (Forall2 (λ c c', prepared age_group str_lower c = Some c') raw cs) as Hprep
    by (by apply mapM_Some).
  assert (Forall (λ c, is_Some (match_string_region c)) cs) as Hregions.
  { apply Forall_forall. intros c' Hc'.
    destruct (Forall2_elem_of_r _ _ _ _ Hprep Hc') as (c & Hc & Hcc').
    apply prepared_fields in Hcc' as (_ & _ & -> & _).
    rewrite Forall_forall in Hregion. by apply Hregion. }
  destruct (standardize_sums safe_datetime_parse _ (aggregated_regions cs Hregions))
    as (out & Hrun & Hsums).
  exists out. split.
  - rewrite parse_dataframes_standardize, prepare_cases_rows.
    rewrite (proj2 (is_text_column_flags raw)) by (by right).
    by rewrite Hcs.
  - intros e.
    destruct (Hsums (value_column e)) as [Hp Hg]; [destruct e; solve_notin |].
    destruct (aggregated_sums safe_datetime_parse cs e) as [Hp' Hg'].
    rewrite Hp, Hg, Hp', Hg'. unfold CaseLine.event_series. rewrite omap_fmap.
    split; f_equal; (eapply length_filter_omap_Forall2; [exact Hprep |]);
      intros c c' Hc; by apply (counted_keys safe_datetime_parse age_group str_lower e c c').
Qed.

End Run.

(** ** Runs on the sample rows *)

Lemma iso_datetime_parse_valid c t :
  iso_datetime_parse c = Some t → Iso.valid_datetime t.
Proof.
  unfold iso_datetime_parse. destruct c as [| s | |]; try done.
  destruct (Iso.read_date _) as [[[y m] d] |]; [| done].
  match goal with |- context [?o ≫= _] => destruct o as [t' |] end; [| done].
  simpl. destruct (Iso.valid_datetimeb t') eqn:Hv; [| done].
  intros [= <-]. by apply valid_datetimeb_spec.
Qed.

(** The scenario of section 8: the four rows of the output, by level, match
    string, date and counts (confirmed, deceased, recovered, hospitalized). *)
Example scenario_output :
  run_summary (parse_dataframes decade_age_group Str.lower iso_datetime_parse
                 [manila_case]) =
  Some [ (CNull, CStr "National Capital Region", CStr "2020-04-10", [0; 0; 1; 0]);
         (CNull, CStr "National Capital Region", CStr "2020-04-01", [1; 0; 0; 1]);
         (CStr EmptyString, CStr "Manila", CStr "2020-04-10", [0; 0; 1; 0]);
         (CStr EmptyString, CStr "Manila", CStr "2020-04-01", [1; 0; 0; 1]) ].
Proof. vm_compute. reflexivity. Qed.

(** A missing admission flag does not stop a run when another row has one. *)
Example missing_flag_among_flags :
  run_summary (parse_dataframes decade_age_group Str.lower iso_datetime_parse
                 [manila_case; missing_flag_case]) =
  Some [ (CNull, CStr "National Capital Region", CStr "2020-04-10", [0; 0; 2; 0]);
         (CNull, CStr "National Capital Region", CStr "2020-04-01", [2; 0; 0; 1]);
         (CStr EmptyString, CStr "Manila", CStr "2020-04-10", [0; 0; 2; 0]);
         (CStr EmptyString, CStr "Manila", CStr "2020-04-01", [2; 0; 0; 1]) ].
Proof. vm_compute. reflexivity. Qed.

(** A case with only the region known: line 84 turns its missing province
    into 0, and line 95 keeps its province-level rows. *)
Example region_only_output :
  run_summary (parse_dataframes decade_age_group Str.lower iso_datetime_parse
                 [region_only_case]) =
  Some [ (CNull, CStr "National Capital Region", CStr "2020-04-10", [0; 0; 1; 0]);
         (CNull, CStr "National Capital Region", CStr "2020-04-01", [1; 0; 0; 1]);
         (CStr EmptyString, CNum 0, CStr "2020-04-10", [0; 0; 1; 0]);
         (CStr EmptyString, CNum 0, CStr "2020-04-01", [1; 0; 0; 1]) ].
Proof. vm_compute. reflexivity. Qed.

(** A case with a blank province string: its province-level rows have an
    empty match string. *)
Example blank_province_output :
  run_summary (parse_dataframes decade_age_group Str.lower iso_datetime_parse
                 [blank_province_case]) =
  Some [ (CNull, CStr "National Capital Region", CStr "2020-04-10", [0; 0; 1; 0]);
         (CNull, CStr "National Capital Region", CStr "2020-04-01", [1; 0; 0; 1]);
         (CStr EmptyString, CStr EmptyString, CStr "2020-04-10", [0; 0; 1; 0]);
         (CStr EmptyString, CStr EmptyString, CStr "2020-04-01", [1; 0; 0; 1]) ].
Proof. vm_compute. reflexivity. Qed.

(** A case without a region stops the run at line 89. *)
Example missing_region_raises :
  parse_dataframes decade_age_group Str.lower iso_datetime_parse
    [set_region None manila_case] = None.
Proof. vm_compute. reflexivity. Qed.

Example sample_series_normalized :
  run_summary (normalize_dates iso_datetime_parse sample_series) =
  Some [ (CNull, CNull, CStr "2020-04-01", [2; 0; 0; 0]) ].
Proof. vm_compute. reflexivity. Qed.

Example sample_table_standardized :
  run_summary (standardize iso_datetime_parse sample_table) =
  Some [ (CNull, CStr "National Capital Region", CStr "2020-04-01", [2; 0; 0; 0]);
         (CNull, CStr "Central Visayas", CStr "2020-04-03", [3; 0; 0; 0]);
         (CStr EmptyString, CStr "Manila", CStr "2020-04-01", [2; 0; 0; 0]);
         (CStr EmptyString, CStr "Cebu", CStr "2020-04-02", [1; 0; 0; 0]);
         (CStr EmptyString, CNum 0, CStr "2020-04-03", [3; 0; 0; 0]) ].
Proof. vm_compute. reflexivity. Qed.

(** C4. Missing values are never fatal -- violated by the code: on the
    scenario row with its sex label missing, line 70 calls [lower] on the
    missing value and the run raises instead of returning a table. *)
Theorem missing_sex_raises :
  ∀ str_lower : string → string,
    parse_dataframes decade_age_group str_lower iso_datetime_parse [missing_sex_case] = None.
Proof. intros str_lower. apply parse_dataframes_raises. by left. Qed.

(** C7. Hospitalization inference -- violated by the code on a table in
    which no row has an admission flag: line 61 asks the column for its
    [.str] accessor, the column is not text, and lines 60-64 raise instead
    of leaving [date_new_hospitalized] null; so does the run. *)
Theorem missing_flags_raise :
  HospitalizationInferrer [missing_flag_case] = None ∧
  HospitalizationInferrer missing_flags_table = None ∧
  ∀ str_lower : string → string,
    parse_dataframes decade_age_group str_lower iso_datetime_parse
      [missing_flag_case] = None.
Proof.
  split; [done |]. split; [done |].
  intros str_lower. apply parse_dataframes_raises_flags; [done |].
  by repeat constructor.
Qed.

(** ** Where the specification and the code part *)

(** C1, as stated, fails: a repatriated case has a confirmation date that is
    present and parses, yet the confirmed counts of the province-level rows
    and of the region-level rows both sum to zero, line 96 having dropped its
    rows. *)
Lemma count_conservation_fails_on_placeholder :
  ∃ out,
    parse_dataframes decade_age_group Str.lower iso_datetime_parse [repatriate_case] =
      Some out ∧
    length (filter (dated iso_datetime_parse confirmed) [repatriate_case]) = 1%nat ∧
    column_sum (value_column confirmed) (filter province_level out) = 0 ∧
    column_sum (value_column confirmed) (filter region_level out) = 0.
Proof.
  exists []. repeat split; vm_compute; reflexivity.
Qed.

(** C2, as stated, fails: an aggregated row whose region is the placeholder
    has a province-level contribution and no region-level one; line 96 has
    dropped it. *)
Lemma placeholder_region_has_no_contribution :
  run_summary (expand_resolutions placeholder_region_table) =
  Some [ (CStr EmptyString, CStr "Cebu", CStr "2020-04-02", [1; 0; 0; 0]) ].
Proof. vm_compute. reflexivity. Qed.

(** C3, as stated, fails: a blank province string is not null, line 95 keeps
    it, and the returned table has a province-level row whose match string
    is empty. *)
Lemma blank_match_string_survives :
  run_summary (expand_resolutions blank_province_table) =
  Some [ (CNull, CStr "National Capital Region", CStr "2020-04-01", [1; 0; 0; 0]);
         (CStr EmptyString, CStr EmptyString, CStr "2020-04-01", [1; 0; 0; 0]) ].
Proof. vm_compute. reflexivity. Qed.


(** ** The theorems at the samples *)

Lemma sample_table_regions :
  Forall (λ d, (∃ g, d !! "match_string_region" = Some (CStr g)) ∧
               is_Some (d !! "match_string_province")) sample_table.
Proof.
  repeat first [apply Forall_nil_2 | apply Forall_cons_2]; split; by eexists.
Defined.

(** Count conservation on the scenario row and a case with only the region
    known. *)
Lemma count_conservation_witness :
  ∃ out,
    parse_dataframes decade_age_group Str.lower iso_datetime_parse
      [manila_case; region_only_case] = Some out ∧
    ∀ e,
      column_sum (value_column e) (filter province_level out) =
        Z.of_nat (length (filter (counted_at_province iso_datetime_parse e)
                            [manila_case; region_only_case])) ∧
      column_sum (value_column e) (filter region_level out) =
        Z.of_nat (length (filter (counted_at_region iso_datetime_parse e)
                            [manila_case; region_only_case])).
Proof.
  apply (count_conservation decade_age_group Str.lower iso_datetime_parse
           [manila_case; region_only_case]).
  - repeat constructor; by eexists.
  - left. by eexists.
  - repeat constructor; by eexists.
Defined.

(** Dual-resolution duplication on the sample table. *)
Lemma dual_resolution_witness :
  ∃ regions provinces,
    expand_resolutions sample_table = Some (regions ++ provinces) ∧
    Forall2 region_contribution (filter region_kept sample_table) regions ∧
    Forall2 province_contribution (filter province_key_kept sample_table) provinces.
Proof. apply (dual_resolution sample_table), sample_table_regions. Defined.

(** Key filtering on the sample table. *)
Lemma match_string_filtered_witness :
  ∃ out,
    expand_resolutions sample_table = Some out ∧
    Forall (λ y, key_kept (get "match_string" y)) out ∧
    (∀ v, (∃ y, y ∈ out ∧ province_level y ∧ y !! "match_string" = Some v) ↔
          key_kept v ∧ ∃ d, d ∈ sample_table ∧ d !! "match_string_province" = Some v) ∧
    (∀ v, (∃ y, y ∈ out ∧ region_level y ∧ y !! "match_string" = Some v) ↔
          key_kept v ∧
          ∃ d g, d ∈ sample_table ∧ d !! "match_string_region" = Some (CStr g) ∧
                 v = CStr (Str.last_piece g)).
Proof. apply (match_string_filtered sample_table), sample_table_regions. Defined.

(** Date normalization on the sample table, with the sample parser. *)
Lemma normalize_dates_witness :
  ∃ out,
    normalize_dates iso_datetime_parse sample_table = Some out ∧
    Forall2 (λ d y, ∃ t s,
               iso_datetime_parse (get "date" d) = Some t ∧
               y = <["date" := CStr s]> d ∧
               String.length s = 10%nat ∧
               Iso.read_date s = Some (year t, month t, day t))
      (filter (λ d, is_Some (iso_datetime_parse (get "date" d))) sample_table) out.
Proof.
  apply (normalize_dates_drops_and_formats iso_datetime_parse
           iso_datetime_parse_valid sample_table).
Defined.

(** The retained key columns on the sample table. *)
Lemma copies_keep_other_key_witness :
  ∃ regions provinces,
    expand_resolutions sample_table = Some (regions ++ provinces) ∧
    Forall2 (λ d y, region_level y ∧
                    y !! "match_string_region" = Some CNull ∧
                    y !! "match_string_province" = d !! "match_string_province")
      (filter region_kept sample_table) regions ∧
    Forall2 (λ d y, province_level y ∧
                    y !! "match_string_province" = Some CNull ∧
                    y !! "match_string_region" = d !! "match_string_region")
      (filter province_key_kept sample_table) provinces.
Proof. apply (copies_keep_other_key sample_table), sample_table_regions. Defined.

(** * Further properties of the source *)

(** ** Splitting (line 89) *)

Section Text.

Lemma append_assoc3 (a b c : string) : (a +:+ b) +:+ c = a +:+ (b +:+ c).
Proof.
  induction a as [| x a IH]; [done |].
  change (String x ((a +:+ b) +:+ c) = String x (a +:+ (b +:+ c))). by rewrite IH.
Qed.

Lemma split_go_nonempty (cur : list ascii) (s : string) : Str.split_go cur s ≠ [].
Proof.
  destruct (split_go_last (String.length s) s cur (le_n _)) as (t & Ht & _).
  intros Hnil. by rewrite Hnil in Ht.
Qed.

Lemma join_cons_nonempty (x : string) (l : list string) :
  l ≠ [] → join_colon_space (x :: l) = x +:+ ": " +:+ join_colon_space l.
Proof. by destruct l. Qed.

Lemma split_go_step (cur : list ascii) (a b : ascii) (s : string) :
  Str.split_go cur (String a (String b s)) =
    if (Ascii.eqb a ":" && Ascii.eqb b " ")%bool
    then string_of_list_ascii (rev cur) :: Str.split_go [] s
    else Str.split_go (a :: cur) (String b s).
Proof. reflexivity. Qed.

Lemma join_split_go (n : nat) : ∀ (s : string) (cur : list ascii),
  (String.length s ≤ n)%nat →
  join_colon_space (Str.split_go cur s) = string_of_list_ascii (rev cur) +:+ s.
Proof.
  induction n as [| n IH]; intros s cur Hlen.
  - destruct s; [| simpl in Hlen; lia]. simpl. by rewrite append_empty_r.
  - destruct s as [| a [| b s]].
    + simpl. by rewrite append_empty_r.
    + simpl. by rewrite <- string_of_list_ascii_snoc, append_empty_r.
    + rewrite split_go_step.
      destruct (Ascii.eqb a ":" && Ascii.eqb b " ")%bool eqn:Hsep.
      * apply sep_eqb in Hsep as [-> ->].
        rewrite join_cons_nonempty by apply split_go_nonempty.
        rewrite (IH s []) by (simpl in Hlen; lia). done.
      * rewrite (IH (String b s) (a :: cur)) by (simpl in Hlen |- *; lia).
        simpl rev. by rewrite string_of_list_ascii_snoc.
Qed.

(** X1. Line 89, round trip: joining the pieces of [x.split(": ")] with ": "
    gives [x] back, whatever the text. *)
Theorem join_split (s : string) :
  join_colon_space (Str.split_colon_space s) = s.
Proof. unfold Str.split_colon_space. by rewrite (join_split_go _ s [] (le_n _)). Qed.

(** X2. Line 89: the match string of a region-level row holds no ": ", and the
    region string is that match string itself or ends with ": " followed by
    it. *)
Theorem region_match_string (s : string) :
  Str.has_sep (Str.last_piece s) = false ∧
  ((Str.has_sep s = false ∧ Str.last_piece s = s) ∨
   ∃ pre, s = pre +:+ ": " +:+ Str.last_piece s).
Proof. apply last_piece_spec. Qed.

End Text.

(** ** The steps on the case table (lines 47-73) *)

Section CaseSteps.

Implicit Types c : CaseRecord.

Lemma infer_hospitalized_imputed c :
  infer_hospitalized (DateImputer c) = DateImputer (infer_hospitalized c).
Proof.
  destruct c as [p g dd dc dr est hosp prog a x dh].
  unfold infer_hospitalized, DateImputer, impute_recovered, impute_deceased,
    nan_recovered_mask, nan_deceased_mask, lower_is_yes,
    set_date_new_recovered, set_date_new_deceased, set_date_new_hospitalized; simpl.
  destruct dd, dr, (text_eq prog "Died") eqn:Hd, (text_eq prog "Recovered") eqn:Hr,
    (text_eq (Str.lower <$> hosp) "yes") eqn:Hh;
    repeat (simpl; rewrite ?Hd, ?Hr, ?Hh); reflexivity.
Qed.

(** X4. Lines 47-64: the three derivations write three different columns and
    none reads a column that another writes, so they can be run in any
    order: the two imputations commute, and the hospitalization inference
    commutes with the imputation, on one row and on a whole table, where
    both orders raise on the same tables. *)
Theorem derivations_commute c (cases : list CaseRecord) :
  impute_recovered (impute_deceased c) = impute_deceased (impute_recovered c) ∧
  infer_hospitalized (DateImputer c) = DateImputer (infer_hospitalized c) ∧
  HospitalizationInferrer (DateImputer <$> cases) =
    (λ out : list CaseRecord, DateImputer <$> out) <$> HospitalizationInferrer cases.
Proof.
  split; [apply impute_comm |]. split; [apply infer_hospitalized_imputed |].
  rewrite !HospitalizationInferrer_rows.
  assert (_hospitalized <$> (DateImputer <$> cases) = _hospitalized <$> cases) as ->.
  { rewrite <- list_fmap_compose. apply list_fmap_ext. intros _ c' _.
    unfold compose, DateImputer, impute_deceased, impute_recovered.
    by destruct (nan_recovered_mask c'), (nan_deceased_mask _). }
  destruct (is_text_column _); [| done]. simpl. f_equal.
  rewrite <- !list_fmap_compose. apply list_fmap_ext. intros _ c' _.
  apply infer_hospitalized_imputed.
Qed.

(** X5. Lines 47-57: a removal category is "Recovered" or "Died", never both, so
    the imputation fills at most one of the two dates of a case. *)
Theorem DateImputer_fills_one c :
  date_new_recovered (DateImputer c) = date_new_recovered c ∨
  date_new_deceased (DateImputer c) = date_new_deceased c.
Proof.
  unfold DateImputer, impute_deceased.
  rewrite nan_deceased_mask_impute_recovered. unfold impute_recovered.
  destruct (nan_recovered_mask c) eqn:Hr, (nan_deceased_mask c) eqn:Hd; simpl; auto.
  apply nan_recovered_mask_spec in Hr as [_ Hr].
  apply nan_deceased_mask_spec in Hd as [_ Hd]. congruence.
Qed.

(** X6. Lines 60-64: the inference first clears the hospitalization column, so
    the values it held before have no effect, and running the step again on
    its result changes nothing; a table on which it raises stays one. *)
Theorem HospitalizationInferrer_resets (cases : list CaseRecord)
    (held : CaseRecord → option string) :
  HospitalizationInferrer ((λ c, set_date_new_hospitalized (held c) c) <$> cases) =
    HospitalizationInferrer cases ∧
  (HospitalizationInferrer cases ≫= HospitalizationInferrer) =
    HospitalizationInferrer cases.
Proof.
  rewrite !HospitalizationInferrer_rows. split.
  - rewrite <- list_fmap_compose.
    change (_hospitalized ∘ (λ c, set_date_new_hospitalized (held c) c))
      with _hospitalized.
    destruct (is_text_column _); [| done]. f_equal.
    rewrite <- list_fmap_compose. apply list_fmap_ext. by intros _ [] _.
  - destruct (is_text_column (_hospitalized <$> cases)) eqn:Htext; [| done].
    simpl. rewrite HospitalizationInferrer_rows, <- list_fmap_compose.
    change (_hospitalized ∘ infer_hospitalized) with _hospitalized.
    rewrite Htext. f_equal.
    rewrite <- list_fmap_compose. apply list_fmap_ext. by intros _ [] _.
Qed.

(** X7. Line 73: dropping the columns whose name starts with an underscore
    leaves exactly the eight public columns, with their values; the three
    internal columns do not reach the aggregation. *)
Theorem drop_private_columns c :
  drop_private (case_row c) = public_columns c ∧
  dom (drop_private (case_row c)) =
    {[ "match_string_province"; "match_string_region"; "date_new_deceased";
       "date_new_confirmed"; "date_new_recovered"; "age"; "sex";
       "date_new_hospitalized" ]} ∧
  ∀ col, is_private col = true → drop_private (case_row c) !! col = None.
Proof.
  assert (drop_private (case_row c) = public_columns c) as Heq.
  { unfold drop_private, case_row, public_columns.
    repeat first
      [ rewrite map_filter_insert_True by done
      | rewrite map_filter_insert_not by (by intros y)
      | rewrite map_filter_singleton_True by done ].
    done. }
  split; [done |]. split.
  - rewrite Heq. unfold public_columns.
    rewrite !dom_insert_L, dom_singleton_L. set_solver.
  - intros col Hcol. apply map_lookup_filter_None. right.
    intros v _. simpl. by rewrite Hcol.
Qed.

End CaseSteps.

(** ** The table operations on any table (lines 84-97) *)

Section AnyTable.

Implicit Types (d r y : row) (col : string) (data : list row).

(** X8. Line 84: after [fillna(0)] no cell of the row is null, the row has the
    same columns, every cell that was not null keeps its value, and a second
    [fillna(0)] changes nothing. *)
Theorem fillna_leaves_no_null r :
  (∀ col, fillna (CNum 0) r !! col ≠ Some CNull) ∧
  dom (fillna (CNum 0) r) = dom r ∧
  (∀ col v, r !! col = Some v → v ≠ CNull → fillna (CNum 0) r !! col = Some v) ∧
  fillna (CNum 0) (fillna (CNum 0) r) = fillna (CNum 0) r.
Proof.
  repeat split.
  - intros col. rewrite lookup_fillna. by destruct (r !! col) as [[] |].
  - unfold fillna. apply dom_fmap_L.
  - intros col v Hv Hnull. rewrite lookup_fillna, Hv. by destruct v.
  - apply map_eq. intros col. rewrite !lookup_fillna.
    by destruct (r !! col) as [[] |].
Qed.

(** X9. Line 89 is where lines 87-97 can raise: on a table that has a region
    column, they return a table exactly when every region is a string; a
    null or a number in the column makes [split] fail. *)
Theorem expand_resolutions_raises_iff data :
  Forall (λ d, is_Some (d !! "match_string_region")) data →
  is_Some (expand_resolutions data) ↔
  Forall (λ d, ∃ g, d !! "match_string_region" = Some (CStr g)) data.
Proof.
  intros Hcol. split.
  - intros Hrun. unfold expand_resolutions in Hrun.
    destruct (mapM strip_qualifier _) as [l2 |] eqn:Hl2; [| by destruct Hrun].
    assert (is_Some (mapM strip_qualifier
                       (rename "match_string_region" "match_string" <$> data))) as Hsome
      by (by rewrite Hl2).
    apply mapM_is_Some in Hsome. rewrite Forall_fmap in Hsome.
    rewrite Forall_forall in Hcol, Hsome |- *.
    intros d Hd. destruct (Hcol d Hd) as [v Hv]. specialize (Hsome d Hd).
    simpl in Hsome. unfold strip_qualifier in Hsome.
    rewrite (rename_present _ _ _ _ Hv), get_insert in Hsome.
    destruct v; try (by destruct Hsome). eauto.
  - intros Hall. by rewrite expand_resolutions_split.
Qed.

(** X10. Lines 87-97, the rows of the result: on a table whose regions are
    strings, every returned row carries the country code "PH", is tagged
    region-level (null) or province-level (empty string), has a match string
    that is neither null nor "Repatriate", and all returned rows have the
    same set of columns. *)
Theorem expand_resolutions_rows data :
  Forall (λ d, ∃ g, d !! "match_string_region" = Some (CStr g)) data →
  ∃ out,
    expand_resolutions data = Some out ∧
    Forall (λ y, y !! "country_code" = Some (CStr "PH") ∧
                 (region_level y ∨ province_level y) ∧
                 key_kept (get "match_string" y)) out ∧
    (∀ y y', y ∈ out → y' ∈ out → dom y = dom y').
Proof.
  intros Hall. eexists. split; [by apply expand_resolutions_split |].
  set (columns := output_columns data).
  assert (∀ y,
    y ∈ omap (λ d, keep_row (fill_columns columns (region_copy d))) data ++
        omap (λ d, keep_row (fill_columns columns (province_copy d))) data →
    ∃ r, r ∈ (region_copy <$> data) ++ (province_copy <$> data) ∧
         y = <["country_code" := CStr "PH"]> (fill_columns columns r) ∧
         key_kept (get "match_string" (fill_columns columns r)) ∧
         (r !! "subregion2_code" = Some CNull ∨
          r !! "subregion2_code" = Some (CStr EmptyString))) as Hrow.
  { intros y [Hy | Hy]%elem_of_app;
      apply list_elem_of_omap in Hy as (d & Hd & [-> Hk]%keep_row_Some).
    - exists (region_copy d). split; [| split; [done | split; [done |]]].
      + apply elem_of_app. left. by apply list_elem_of_fmap_2.
      + left. unfold region_copy. by lookups.
    - exists (province_copy d). split; [| split; [done | split; [done |]]].
      + apply elem_of_app. right. by apply list_elem_of_fmap_2.
      + right. unfold province_copy. by lookups. }
  split.
  - apply Forall_forall. intros y (r & Hr & -> & Hk & Htag)%Hrow.
    split; [by lookups |]. split.
    + unfold region_level, province_level. rewrite lookup_insert_ne by done.
      destruct Htag as [Htag | Htag]; [left | right];
        by apply fill_columns_lookup.
    + by rewrite get_insert_ne.
  - assert (∀ y, y ∈ omap (λ d, keep_row (fill_columns columns (region_copy d))) data ++
                     omap (λ d, keep_row (fill_columns columns (province_copy d))) data →
                 dom y = {["country_code"]} ∪ columns) as Hdom.
    { intros y (r & Hr & -> & _)%Hrow.
      rewrite dom_insert_L, dom_fill_columns; [done |].
      by apply dom_table_columns. }
    intros y y' Hy Hy'. by rewrite (Hdom y Hy), (Hdom y' Hy').
Qed.

End AnyTable.
(** ** How many rows lines 87-97 return *)

Section RowCount.

Implicit Types (d r y : row) (col : string) (data : list row).

Lemma expand_resolutions_count data :
  Forall (λ d, (∃ g, d !! "match_string_region" = Some (CStr g)) ∧
               is_Some (d !! "match_string_province")) data →
  ∃ out,
    expand_resolutions data = Some out ∧
    length out = (length (filter region_kept data) +
                  length (filter (λ d, key_kept (get "match_string_province" d)) data))%nat ∧
    ∀ d v, d ∈ data → d !! "match_string_province" = Some v → key_kept v →
           ∃ y, y ∈ out ∧ province_level y ∧ y !! "match_string" = Some v.
Proof.
  intros Hall.
  assert (Forall (λ d, ∃ g, d !! "match_string_region" = Some (CStr g)) data) as Hreg.
  { eapply Forall_impl; [exact Hall |]. by intros d [Hg _]. }
  rewrite Forall_forall in Hall.
  eexists. split; [by apply expand_resolutions_split |].
  set (columns := output_columns data).
  assert (∀ d v, d !! "match_string_province" = Some v →
            keep_row (fill_columns columns (province_copy d)) =
              if decide (key_kept v)
              then Some (<["country_code" := CStr "PH"]>
                           (fill_columns columns (province_copy d)))
              else None) as Hprov.
  { intros d v Hv. apply keep_row_cell, fill_columns_lookup.
    unfold province_copy. rewrite (rename_present _ _ _ _ Hv). by lookups. }
  split.
  - rewrite length_app. f_equal; apply length_omap_filter; intros d Hd.
    + destruct (Hall d Hd) as [[g Hg] _].
      rewrite (keep_region_copy _ _ g Hg).
      unfold region_kept. rewrite (get_lookup _ _ _ Hg). cbn [text_of].
      destruct (decide (Str.last_piece g = "Repatriate")) as [Heq | Hne].
      * split; [by intros [] | done].
      * split; [done | eauto].
    + destruct (Hall d Hd) as [_ [v Hv]].
      rewrite (Hprov d v Hv), (get_lookup _ _ _ Hv).
      destruct (decide (key_kept v)) as [Hk | Hk].
      * split; [done | eauto].
      * split; [by intros [] | done].
  - intros d v Hd Hv Hk. eexists. split.
    + apply elem_of_app. right. apply list_elem_of_omap. exists d. split; [done |].
      rewrite (Hprov d v Hv). by rewrite decide_True.
    + split.
      * unfold province_level. rewrite lookup_insert_ne by done.
        apply fill_columns_lookup. unfold province_copy. by lookups.
      * rewrite lookup_insert_ne by done. apply fill_columns_lookup.
        unfold province_copy. rewrite (rename_present _ _ _ _ Hv). by lookups.
Qed.

(** X11. Lines 87-97, the number of rows: on a table with string regions and a
    province column, the result has one row for every input row whose region
    after the last ": " is not "Repatriate", plus one row for every input row
    whose province is neither null nor "Repatriate"; so never more than
    twice the input. *)
Theorem expand_resolutions_length data :
  Forall (λ d, (∃ g, d !! "match_string_region" = Some (CStr g)) ∧
               is_Some (d !! "match_string_province")) data →
  ∃ out,
    expand_resolutions data = Some out ∧
    length out = (length (filter region_kept data) +
                  length (filter (λ d, key_kept (get "match_string_province" d)) data))%nat ∧
    (length out ≤ 2 * length data)%nat.
Proof.
  intros (out & Hrun & Hlen & _)%expand_resolutions_count.
  exists out. split; [done |]. split; [done |]. rewrite Hlen.
  pose proof (length_filter region_kept data).
  pose proof (length_filter (λ d, key_kept (get "match_string_province" d)) data).
  lia.
Qed.

(** X12. Lines 84 and 95 together: line 84 has already replaced every null by 0
    when line 95 drops the rows with a null match string, so line 95 drops
    nothing.  On a table with string regions and a province column, only the
    placeholder removes rows, and a row whose province is null comes out as
    a province-level row with match string 0. *)
Theorem dropna_after_fillna_keeps_all data :
  Forall (λ d, (∃ g, d !! "match_string_region" = Some (CStr g)) ∧
               is_Some (d !! "match_string_province")) data →
  ∃ out,
    expand_resolutions (fillna (CNum 0) <$> data) = Some out ∧
    length out = (length (filter region_kept data) +
                  length (filter province_kept data))%nat ∧
    ∀ d, d ∈ data → d !! "match_string_province" = Some CNull →
         ∃ y, y ∈ out ∧ province_level y ∧ y !! "match_string" = Some (CNum 0).
Proof.
  intros Hall.
  destruct (expand_resolutions_count (fillna (CNum 0) <$> data)) as (out & Hrun & Hlen & Hin).
  { apply Forall_fmap. eapply Forall_impl; [exact Hall |].
    intros d [[g Hg] [v Hv]]. simpl. rewrite !lookup_fillna, Hg, Hv. eauto. }
  exists out. split; [done |]. split.
  - rewrite Hlen. rewrite Forall_forall in Hall. f_equal.
    + rewrite (filter_fmap_iff _ _ region_kept), length_fmap; [done |].
      intros d Hd. destruct (Hall d Hd) as [[g Hg] _].
      unfold region_kept.
      rewrite (get_lookup _ (fillna (CNum 0) d) (CStr g))
        by (by rewrite lookup_fillna, Hg).
      by rewrite (get_lookup _ _ _ Hg).
    + rewrite (filter_fmap_iff _ _ province_kept), length_fmap; [done |].
      intros d Hd. destruct (Hall d Hd) as [_ [v Hv]].
      unfold province_kept, key_kept.
      rewrite (get_lookup _ (fillna (CNum 0) d) (if isna v then CNum 0 else v))
        by (by rewrite lookup_fillna, Hv).
      rewrite (get_lookup _ _ _ Hv).
      destruct v; simpl; split; intros H; try (split; congruence); by destruct H.
  - intros d Hd Hnull. apply (Hin (fillna (CNum 0) d) (CNum 0)).
    + by apply list_elem_of_fmap_2.
    + by rewrite lookup_fillna, Hnull.
    + split; congruence.
Qed.

End RowCount.

(** ** Lines 81-97 on any aggregated table *)

Section AnyAggregate.

Variable safe_datetime_parse : cell → option datetime.

Hypothesis parse_valid :
  ∀ c t, safe_datetime_parse c = Some t → Iso.valid_datetime t.

Implicit Types (d r y : row) (col : string) (data : list row).

(** X13. Lines 81-97 keep what line 83 wrote: on any aggregated table whose
    regions are strings they return a table, with at most two rows for each
    input row whose date parses; every returned row comes from an input row
    whose date parses, its date is the ten-character string [YYYY-MM-DD] of
    the year, month and day of that timestamp, and it holds every cell of
    that row that is not null and that lines 81-97 do not write. *)
Theorem standardize_dates data :
  Forall (λ d, ∃ g, d !! "match_string_region" = Some (CStr g)) data →
  ∃ out,
    standardize safe_datetime_parse data = Some out ∧
    (length out ≤
       2 * length (filter (λ d, is_Some (safe_datetime_parse (get "date" d))) data))%nat ∧
    Forall (λ y, ∃ d t s,
              d ∈ data ∧ safe_datetime_parse (get "date" d) = Some t ∧
              y !! "date" = Some (CStr s) ∧
              String.length s = 10%nat ∧
              Iso.read_date s = Some (year t, month t, day t) ∧
              ∀ col v,
                col ∉ ["date"; "match_string"; "subregion2_code"; "match_string_region";
                       "match_string_province"; "country_code"] →
                v ≠ CNull → d !! col = Some v → y !! col = Some v) out.
Proof.
  intros Hall. unfold standardize. rewrite normalize_dates_omap. simpl.
  set (dated := omap (normalized safe_datetime_parse) data).
  assert (∀ d', d' ∈ fillna (CNum 0) <$> dated →
            ∃ d t, d ∈ data ∧ safe_datetime_parse (get "date" d) = Some t ∧
                   d' = fillna (CNum 0) (<["date" := CStr (Iso.isoformat t)]> d))
    as Hrows.
  { intros d' (n & -> & Hn)%list_elem_of_fmap.
    apply list_elem_of_omap in Hn as (d & Hd & Hn). unfold normalized in Hn.
    destruct (safe_datetime_parse (get "date" d)) as [t |] eqn:Hp; [| done].
    injection Hn as <-. eauto. }
  assert (Forall (λ d, ∃ g, d !! "match_string_region" = Some (CStr g))
            (fillna (CNum 0) <$> dated)) as Hreg.
  { apply Forall_forall. intros d' (d & t & Hd & _ & ->)%Hrows.
    rewrite Forall_forall in Hall. destruct (Hall d Hd) as [g Hg].
    rewrite lookup_fillna, lookup_insert_ne by done. rewrite Hg. eauto. }
  eexists. split; [by apply expand_resolutions_split |]. split.
  - rewrite length_app.
    pose proof (length_omap_filter (normalized safe_datetime_parse)
                  (λ d, is_Some (safe_datetime_parse (get "date" d))) data) as Hlen.
    rewrite <- Hlen.
    2:{ intros d _. unfold normalized.
        destruct (safe_datetime_parse (get "date" d)); simpl.
        - split; intros _; by eexists.
        - split; by intros []. }
    fold dated.
    pose proof (length_omap_le
      (λ d, keep_row (fill_columns (output_columns (fillna (CNum 0) <$> dated))
                        (region_copy d))) (fillna (CNum 0) <$> dated)).
    pose proof (length_omap_le
      (λ d, keep_row (fill_columns (output_columns (fillna (CNum 0) <$> dated))
                        (province_copy d))) (fillna (CNum 0) <$> dated)).
    rewrite length_fmap in *. lia.
  - apply Forall_app. split; apply Forall_forall;
      intros y (d' & Hd' & [-> _]%keep_row_Some)%list_elem_of_omap;
      destruct (Hrows d' Hd') as (d & t & Hd & Hp & ->);
      exists d, t, (Iso.isoformat t);
      (split; [done |]); (split; [done |]); (split; [| split; [apply isoformat_length |]]);
      try (split; [apply read_date_isoformat; by eapply parse_valid |]);
      try (intros col v (Hdate & Hcc & _ & _ & Hr & Hp')%written_columns Hv Hcol);
      rewrite lookup_insert_ne by done; apply fill_columns_lookup;
      first [rewrite region_copy_other by (done || solve_notin)
            | rewrite province_copy_other by (done || solve_notin)];
      rewrite lookup_fillna;
      first [by rewrite lookup_insert_eq
            | rewrite lookup_insert_ne by done; rewrite Hcol; by destruct v].
Qed.

(** X17. Lines 81-97 conserve the counts: on any aggregated table whose
    regions are strings and that has a province column they return a table,
    and for every column that they do not write, the sum over the
    province-level rows is the sum over the input rows whose date parses and
    whose province is not "Repatriate", and the sum over the region-level
    rows is the sum over the input rows whose date parses and whose region
    after the last ": " is not "Repatriate"; null counts as 0. *)
Theorem standardize_conserves_sums data :
  Forall (λ d, (∃ g, d !! "match_string_region" = Some (CStr g)) ∧
               is_Some (d !! "match_string_province")) data →
  ∃ out,
    standardize safe_datetime_parse data = Some out ∧
    ∀ col,
      col ∉ ["date"; "match_string"; "subregion2_code"; "match_string_region";
             "match_string_province"; "country_code"] →
      column_sum col (filter province_level out) =
        column_sum col (filter (row_at_province safe_datetime_parse) data) ∧
      column_sum col (filter region_level out) =
        column_sum col (filter (row_at_region safe_datetime_parse) data).
Proof. apply standardize_sums. Qed.

End AnyAggregate.

(** ** The further properties at the samples *)

(** Lines 87-97 return a table on the sample table. *)
Lemma expand_resolutions_raises_iff_witness :
  is_Some (expand_resolutions sample_table) ↔
  Forall (λ d, ∃ g, d !! "match_string_region" = Some (CStr g)) sample_table.
Proof.
  apply (expand_resolutions_raises_iff sample_table).
  repeat first [apply Forall_nil_2 | apply Forall_cons_2]; by eexists.
Defined.

(** The rows that lines 87-97 return on the sample table. *)
Lemma expand_resolutions_rows_witness :
  ∃ out,
    expand_resolutions sample_table = Some out ∧
    Forall (λ y, y !! "country_code" = Some (CStr "PH") ∧
                 (region_level y ∨ province_level y) ∧
                 key_kept (get "match_string" y)) out ∧
    (∀ y y', y ∈ out → y' ∈ out → dom y = dom y').
Proof.
  apply (expand_resolutions_rows sample_table).
  eapply Forall_impl; [exact sample_table_regions |]. by intros d [Hg _].
Defined.

(** The number of rows that lines 87-97 return on the sample table. *)
Lemma expand_resolutions_length_witness :
  ∃ out,
    expand_resolutions sample_table = Some out ∧
    length out = (length (filter region_kept sample_table) +
                  length (filter (λ d, key_kept (get "match_string_province" d))
                            sample_table))%nat ∧
    (length out ≤ 2 * length sample_table)%nat.
Proof. apply (expand_resolutions_length sample_table), sample_table_regions. Defined.

(** The zero fill before the null filter, on the sample table. *)
Lemma dropna_after_fillna_keeps_all_witness :
  ∃ out,
    expand_resolutions (fillna (CNum 0) <$> sample_table) = Some out ∧
    length out = (length (filter region_kept sample_table) +
                  length (filter province_kept sample_table))%nat ∧
    ∀ d, d ∈ sample_table → d !! "match_string_province" = Some CNull →
         ∃ y, y ∈ out ∧ province_level y ∧ y !! "match_string" = Some (CNum 0).
Proof. apply (dropna_after_fillna_keeps_all sample_table), sample_table_regions. Defined.

(** Lines 81-97 on the sample table, with the sample parser. *)
Lemma standardize_dates_witness :
  ∃ out,
    standardize iso_datetime_parse sample_table = Some out ∧
    (length out ≤
       2 * length (filter (λ d, is_Some (iso_datetime_parse (get "date" d)))
                     sample_table))%nat ∧
    Forall (λ y, ∃ d t s,
              d ∈ sample_table ∧ iso_datetime_parse (get "date" d) = Some t ∧
              y !! "date" = Some (CStr s) ∧
              String.length s = 10%nat ∧
              Iso.read_date s = Some (year t, month t, day t) ∧
              ∀ col v,
                col ∉ ["date"; "match_string"; "subregion2_code"; "match_string_region";
                       "match_string_province"; "country_code"] →
                v ≠ CNull → d !! col = Some v → y !! col = Some v) out.
Proof.
  apply (standardize_dates iso_datetime_parse iso_datetime_parse_valid sample_table).
  eapply Forall_impl; [exact sample_table_regions |]. by intros d [Hg _].
Defined.

(** The sums of the sample table through lines 81-97. *)
Lemma standardize_conserves_sums_witness :
  ∃ out,
    standardize iso_datetime_parse sample_table = Some out ∧
    ∀ col,
      col ∉ ["date"; "match_string"; "subregion2_code"; "match_string_region";
             "match_string_province"; "country_code"] →
      column_sum col (filter province_level out) =
        column_sum col (filter (row_at_province iso_datetime_parse) sample_table) ∧
      column_sum col (filter region_level out) =
        column_sum col (filter (row_at_region iso_datetime_parse) sample_table).
Proof.
  apply (standardize_conserves_sums iso_datetime_parse sample_table),
    sample_table_regions.
Defined.
